(** * Face-authentication attendance system: a shallow embedding

    The development follows the Python modules with decision logic:
    - [face_utils.py]  (class FaceRecognitionEngine)  -> Module [FaceUtils],
                       and [FaceUtils64] for the matcher in binary64
    - [spoof.py]       (class LivenessDetector)       -> Module [Spoof]
    - [db.py]          (class AttendanceDB)           -> Module [Db]
    - [camera.py]      (class CameraHandler)          -> Module [Camera]
    - [app.py]         (the two pages with a camera)  -> Module [App]

    Conventions.
    - In [FaceUtils] and [Spoof], distances, tolerances and eye aspect
      ratios are exact rationals [Q]: what is proved there is about order,
      membership and state, and NaN and the infinities are outside the
      model.  The values the matcher computes (distance, acceptance,
      confidence) are in [FaceUtils64], where they are primitive floats as
      numpy computes them.
    - The hours of an attendance record are computed by SQLite in binary64;
      they are primitive floats here, with their rational value taken through
      [Prim2SF].
    - The external libraries (face_recognition, cv2, numpy.linalg.norm) are
      Section variables; whatever they may raise is an [outcome].
    - A Python dict is an insertion-ordered association list ([Dict]),
      because [recognize_face] depends on the iteration order.
    - Methods that mutate [self] are state-passing functions; the clock, the
      file system and the database connection are explicit arguments. *)

From Stdlib Require Import List String Ascii ZArith PArith QArith Qminmax Qabs Qpower.
From Stdlib Require Import Bool Lia Lqa Permutation Sorted.
From Stdlib Require Import Floats Uint63 DecimalString.
Import ListNotations.

Set Implicit Arguments.

(** ** Results of calls into external libraries *)

Inductive outcome (A : Type) : Type :=
| Returns (a : A)
| Raises.
Arguments Raises {A}.

(** ** Python's insertion-ordered dict with string keys *)

Module Dict.

Definition dict (V : Type) : Type := list (string * V).

Fixpoint get {V} (d : dict V) (k : string) : option V :=
  match d with
  | [] => None
  | (k', v) :: d' => if String.eqb k k' then Some v else get d' k
  end.

(** [k in d] *)
Definition mem {V} (d : dict V) (k : string) : bool :=
  match get d k with Some _ => true | None => false end.

(** [d[k] = v]: an existing key keeps its position, a new key goes last. *)
Fixpoint set {V} (d : dict V) (k : string) (v : V) : dict V :=
  match d with
  | [] => [(k, v)]
  | (k', v') :: d' =>
      if String.eqb k k' then (k', v) :: d' else (k', v') :: set d' k v
  end.

(** [del d[k]] *)
Fixpoint del {V} (d : dict V) (k : string) : dict V :=
  match d with
  | [] => []
  | (k', v') :: d' =>
      if String.eqb k k' then d' else (k', v') :: del d' k
  end.

Definition keys {V} (d : dict V) : list string := map fst d.
Definition items {V} (d : dict V) : list (string * V) := d.

(** truthiness of a dict: [not d] is true exactly on the empty dict *)
Definition is_empty {V} (d : dict V) : bool :=
  match d with [] => true | _ => false end.

End Dict.

(** Strict comparison of rationals as a boolean, for Python's [<] and [>]. *)
Definition Qltb (a b : Q) : bool := negb (Qle_bool b a).

(** ** face_utils.py *)

Module FaceUtils.

(** A face embedding (a 128-D numpy array in the source). *)
Definition encoding : Type := list Q.

Definition gallery : Type := Dict.dict (list encoding).

(** What the pickle file at [encodings_path] holds. *)
Inductive file_content : Type :=
| NoFile
| Pickled (g : gallery)
| Damaged.

(** What the file system does when [save_encodings] writes: either the
    dump lands, or some step raises and leaves [residue] on disk. *)
Inductive write_env : Type :=
| WriteLands
| WriteRaises (residue : file_content).

(** Calls to [st.error] / [st.warning], by method. *)
Inductive ui_event : Type :=
| WarnLoadEncodings
| ErrSaveEncodings
| ErrDetectFaces
| ErrGenerateEncoding.

Record engine : Type := mkEngine {
  tolerance : Q;
  known_faces : gallery;
  encodings_file : file_content;
  ui : list ui_event
}.

Definition set_known_faces (e : engine) (g : gallery) : engine :=
  mkEngine (tolerance e) g (encodings_file e) (ui e).
Definition set_file (e : engine) (f : file_content) : engine :=
  mkEngine (tolerance e) (known_faces e) f (ui e).
Definition log (e : engine) (ev : ui_event) : engine :=
  mkEngine (tolerance e) (known_faces e) (encodings_file e) (ui e ++ [ev]).

(** [save_encodings]: the exception is caught and shown with [st.error];
    nothing is returned to the caller either way. *)
Definition save_encodings (w : write_env) (e : engine) : engine :=
  match w with
  | WriteLands => set_file e (Pickled (known_faces e))
  | WriteRaises residue => log (set_file e residue) ErrSaveEncodings
  end.

Inductive register_message : Type :=
| RegNoFace
| RegMultipleFaces (n : nat)
| RegEncodingFailed
| RegAddedScan (user_name : string)
| RegRegistered (user_name : string).

Record register_result : Type := mkRegister {
  reg_success : bool;
  reg_message : register_message;
  reg_encoding : option encoding
}.

Inductive recognize_message : Type :=
| MsgNoFace
| MsgMultipleFaces
| MsgNoRegisteredUsers
| MsgEncodingFailed
| MsgNoKnownFaces
| MsgRecognized (matched_name : string)
| MsgNotRecognized (best_distance : Q).

Record recognize_result : Type := mkRecognize {
  success : bool;
  name : option string;
  confidence : Q;
  message : recognize_message;
  distances : list Q
}.

Inductive delete_message : Type :=
| DelDeleted (user_name : string)
| DelNotFound (user_name : string).

Record delete_result : Type := mkDelete {
  del_success : bool;
  del_message : delete_message
}.

(** [np.argmin]: index of the first smallest element. *)
Fixpoint argmin_from (best_i : nat) (best : Q) (i : nat) (l : list Q) : nat :=
  match l with
  | [] => best_i
  | x :: l' =>
      if Qltb x best then argmin_from i x (S i) l'
      else argmin_from best_i best (S i) l'
  end.

Definition argmin (l : list Q) : nat :=
  match l with
  | [] => 0%nat
  | x :: l' => argmin_from 0 x 1 l'
  end.

(** elementwise [a - b] of two arrays *)
Fixpoint vsub (a b : encoding) : encoding :=
  match a, b with
  | x :: a', y :: b' => (x - y) :: vsub a' b'
  | _, _ => []
  end.

Section Engine.

Variable image : Type.
Variable location : Type.

(** [face_recognition.face_locations(image_rgb, model='hog')] *)
Variable face_locations : image -> outcome (list location).
(** [face_recognition.face_encodings(image_rgb, [loc], num_jitters=1)] *)
Variable face_encodings : image -> location -> outcome (list encoding).
(** [np.linalg.norm] of one row *)
Variable norm : encoding -> Q.

(** [face_recognition.face_distance]:
    [np.linalg.norm(face_encodings - face_to_compare, axis=1)] *)
Definition face_distance (encs : list encoding) (probe : encoding) : list Q :=
  map (fun enc => norm (vsub enc probe)) encs.

Definition detect_faces (image_rgb : image) (e : engine)
  : list location * engine :=
  match face_locations image_rgb with
  | Returns locs => (locs, e)
  | Raises => ([], log e ErrDetectFaces)
  end.

Definition generate_encoding (image_rgb : image) (loc : location) (e : engine)
  : option encoding * engine :=
  match face_encodings image_rgb loc with
  | Returns (enc :: _) => (Some enc, e)
  | Returns [] => (None, e)
  | Raises => (None, log e ErrGenerateEncoding)
  end.

Definition register_face (image_rgb : image) (user_name : string)
           (w : write_env) (e : engine) : register_result * engine :=
  let (face_locs, e1) := detect_faces image_rgb e in
  match face_locs with
  | [] => (mkRegister false RegNoFace None, e1)
  | _ :: _ :: _ =>
      (mkRegister false (RegMultipleFaces (List.length face_locs)) None, e1)
  | [face_location] =>
      let (enc, e2) := generate_encoding image_rgb face_location e1 in
      match enc with
      | None => (mkRegister false RegEncodingFailed None, e2)
      | Some enc =>
          let (e3, msg) :=
            match Dict.get (known_faces e2) user_name with
            | Some encs =>
                (set_known_faces e2
                   (Dict.set (known_faces e2) user_name (encs ++ [enc])),
                 RegAddedScan user_name)
            | None =>
                (set_known_faces e2
                   (Dict.set (known_faces e2) user_name [enc]),
                 RegRegistered user_name)
            end in
          let e4 := save_encodings w e3 in
          (mkRegister true msg (Some enc), e4)
      end
  end.

(** the two parallel lists built by the nested [for] loops *)
Definition all_known_encodings (g : gallery) : list encoding :=
  flat_map (fun item => snd item) (Dict.items g).
Definition all_known_names (g : gallery) : list string :=
  flat_map (fun item => map (fun _ => fst item) (snd item)) (Dict.items g).

Definition recognize_face (image_rgb : image) (e : engine)
  : recognize_result * engine :=
  let (face_locs, e1) := detect_faces image_rgb e in
  match face_locs with
  | [] => (mkRecognize false None 0 MsgNoFace [], e1)
  | _ :: _ :: _ => (mkRecognize false None 0 MsgMultipleFaces [], e1)
  | [face_location] =>
      if Dict.is_empty (known_faces e1) then
        (mkRecognize false None 0 MsgNoRegisteredUsers [], e1)
      else
        let (enc, e2) := generate_encoding image_rgb face_location e1 in
        match enc with
        | None => (mkRecognize false None 0 MsgEncodingFailed [], e2)
        | Some unknown_encoding =>
            let encs := all_known_encodings (known_faces e2) in
            let names := all_known_names (known_faces e2) in
            let ds := face_distance encs unknown_encoding in
            if (List.length ds =? 0)%nat then
              (mkRecognize false None 0 MsgNoKnownFaces [], e2)
            else
              let best_match_idx := argmin ds in
              let best_distance := nth best_match_idx ds 0 in
              if Qltb best_distance (tolerance e2) then
                let matched_name := nth best_match_idx names EmptyString in
                (mkRecognize true (Some matched_name)
                   (1 - best_distance / tolerance e2)
                   (MsgRecognized matched_name) ds, e2)
              else
                (mkRecognize false None 0
                   (MsgNotRecognized best_distance) ds, e2)
        end
  end.

End Engine.

Definition get_registered_users (e : engine) : list string :=
  Dict.keys (known_faces e).

Definition get_user_count (e : engine) : nat := List.length (known_faces e).

Definition get_user_encoding_count (e : engine) (user_name : string) : nat :=
  match Dict.get (known_faces e) user_name with
  | Some encs => List.length encs
  | None => 0
  end.

Definition delete_user (user_name : string) (w : write_env) (e : engine)
  : delete_result * engine :=
  if Dict.mem (known_faces e) user_name then
    let e1 := set_known_faces e (Dict.del (known_faces e) user_name) in
    let e2 := save_encodings w e1 in
    (mkDelete true (DelDeleted user_name), e2)
  else
    (mkDelete false (DelNotFound user_name), e).

(** [load_encodings]: a missing file leaves [known_faces] alone; a file
    that cannot be read or unpickled gives a warning and an empty dict. *)
Definition load_encodings (e : engine) : engine :=
  match encodings_file e with
  | NoFile => e
  | Pickled g => set_known_faces e g
  | Damaged => log (set_known_faces e []) WarnLoadEncodings
  end.

(** [FaceRecognitionEngine(encodings_path, tolerance)] on a disk where the
    pickle file holds [f] (the data directory could be created). *)
Definition init (tol : Q) (f : file_content) : engine :=
  load_encodings (mkEngine tol [] f []).

End FaceUtils.

(** ** face_utils.py: the matcher in binary64 *)

Module FaceUtils64.

(** A face embedding: a numpy array of doubles. *)
Definition encoding : Type := list float.

Definition gallery : Type := Dict.dict (list encoding).

(** The part of the engine that [recognize_face] reads, and the messages
    shown. *)
Record engine : Type := mkEngine {
  tolerance : float;
  known_faces : gallery;
  ui : list FaceUtils.ui_event
}.

Definition log (e : engine) (ev : FaceUtils.ui_event) : engine :=
  mkEngine (tolerance e) (known_faces e) (ui e ++ [ev]).

Inductive recognize_message : Type :=
| MsgNoFace
| MsgMultipleFaces
| MsgNoRegisteredUsers
| MsgEncodingFailed
| MsgNoKnownFaces
| MsgRecognized (matched_name : string)
| MsgNotRecognized (best_distance : float).

Record recognize_result : Type := mkRecognize {
  success : bool;
  name : option string;
  confidence : float;
  message : recognize_message;
  distances : list float
}.

(** [np.argmin] on doubles: the index of the first NaN if there is one,
    else of the first smallest element.  The scan replaces the candidate
    [mp] when [!(mp <= x)] and stops at a NaN. *)
Fixpoint argmin_from (min_ind : nat) (mp : float) (i : nat) (l : list float)
  : nat :=
  match l with
  | [] => min_ind
  | x :: l' =>
      if negb (mp <=? x)%float then
        if is_nan x then i else argmin_from i x (S i) l'
      else argmin_from min_ind mp (S i) l'
  end.

Definition argmin (l : list float) : nat :=
  match l with
  | [] => 0%nat
  | x :: l' => if is_nan x then 0%nat else argmin_from 0 x 1 l'
  end.

(** elementwise [a - b] of two arrays *)
Fixpoint vsub (a b : encoding) : encoding :=
  match a, b with
  | x :: a', y :: b' => (x - y)%float :: vsub a' b'
  | _, _ => []
  end.

Section Engine.

Variable image : Type.
Variable location : Type.

(** [face_recognition.face_locations(image_rgb, model='hog')] *)
Variable face_locations : image -> outcome (list location).
(** [face_recognition.face_encodings(image_rgb, [loc], num_jitters=1)] *)
Variable face_encodings : image -> location -> outcome (list encoding).
(** [np.add.reduce] along one row: the sum of the entries, rounded after
    each addition, in the order in which numpy adds them (pairwise in
    blocks for long rows); nothing proved below depends on that order *)
Variable add_reduce : list float -> float.

(** [np.linalg.norm(x, axis=1)] on one row: [sqrt(add.reduce(x * x))] *)
Definition norm (x : encoding) : float :=
  PrimFloat.sqrt (add_reduce (map (fun a => a * a)%float x)).

(** [face_recognition.face_distance]:
    [np.linalg.norm(face_encodings - face_to_compare, axis=1)] *)
Definition face_distance (encs : list encoding) (probe : encoding)
  : list float :=
  map (fun enc => norm (vsub enc probe)) encs.

Definition detect_faces (image_rgb : image) (e : engine)
  : list location * engine :=
  match face_locations image_rgb with
  | Returns locs => (locs, e)
  | Raises => ([], log e FaceUtils.ErrDetectFaces)
  end.

Definition generate_encoding (image_rgb : image) (loc : location) (e : engine)
  : option encoding * engine :=
  match face_encodings image_rgb loc with
  | Returns (enc :: _) => (Some enc, e)
  | Returns [] => (None, e)
  | Raises => (None, log e FaceUtils.ErrGenerateEncoding)
  end.

(** the two parallel lists built by the nested [for] loops *)
Definition all_known_encodings (g : gallery) : list encoding :=
  flat_map (fun item => snd item) (Dict.items g).
Definition all_known_names (g : gallery) : list string :=
  flat_map (fun item => map (fun _ => fst item) (snd item)) (Dict.items g).

Definition recognize_face (image_rgb : image) (e : engine)
  : recognize_result * engine :=
  let (face_locs, e1) := detect_faces image_rgb e in
  match face_locs with
  | [] => (mkRecognize false None 0 MsgNoFace [], e1)
  | _ :: _ :: _ => (mkRecognize false None 0 MsgMultipleFaces [], e1)
  | [face_location] =>
      if Dict.is_empty (known_faces e1) then
        (mkRecognize false None 0 MsgNoRegisteredUsers [], e1)
      else
        let (enc, e2) := generate_encoding image_rgb face_location e1 in
        match enc with
        | None => (mkRecognize false None 0 MsgEncodingFailed [], e2)
        | Some unknown_encoding =>
            let encs := all_known_encodings (known_faces e2) in
            let names := all_known_names (known_faces e2) in
            let ds := face_distance encs unknown_encoding in
            if (List.length ds =? 0)%nat then
              (mkRecognize false None 0 MsgNoKnownFaces [], e2)
            else
              let best_match_idx := argmin ds in
              let best_distance := nth best_match_idx ds 0%float in
              if (best_distance <? tolerance e2)%float then
                let matched_name := nth best_match_idx names EmptyString in
                (mkRecognize true (Some matched_name)
                   (1 - best_distance / tolerance e2)%float
                   (MsgRecognized matched_name) ds, e2)
              else
                (mkRecognize false None 0
                   (MsgNotRecognized best_distance) ds, e2)
        end
  end.

End Engine.

End FaceUtils64.

(** ** spoof.py *)

Module Spoof.

(** A grayscale frame, flattened: one entry per pixel, 0..255. *)
Definition gray : Type := list Z.

(** An eye landmark: integer pixel coordinates [(x, y)]. *)
Definition point : Type := (Z * Z)%type.

(** One entry of [face_recognition.face_landmarks]. *)
Record landmarks : Type := mkLandmarks {
  left_eye : list point;
  right_eye : list point
}.

Record detector : Type := mkDetector {
  blink_threshold : Q;
  frame_variation_threshold : Z;
  frame_history : list gray;
  max_history : nat;
  ear_history : list Q;
  ear_history_len : nat;
  blink_detected : bool
}.

(** [LivenessDetector(blink_threshold, frame_variation_threshold, ear_history_len)] *)
Definition init (blink_thr : Q) (variation_thr : Z) (history_len : nat) : detector :=
  mkDetector blink_thr variation_thr [] 5 [] history_len false.

(** [LivenessDetector()] *)
Definition default : detector := init (25 # 100) 500 10.

Definition set_frame_history (d : detector) (h : list gray) : detector :=
  mkDetector (blink_threshold d) (frame_variation_threshold d) h (max_history d)
             (ear_history d) (ear_history_len d) (blink_detected d).

Definition set_ear (d : detector) (h : list Q) (b : bool) : detector :=
  mkDetector (blink_threshold d) (frame_variation_threshold d) (frame_history d)
             (max_history d) h (ear_history_len d) b.

Inductive blink_message : Type :=
| NoLandmarks
| BlinkDetected
| NoBlinkDetected
| BlinkError.

Record blink_result : Type := mkBlink {
  has_blink : bool;
  avg_ear : Q;
  blink_msg : blink_message
}.

Inductive variation_message : Type :=
| AcquiringBaseline
| LiveFace
| PossibleSpoof
| VariationError.

Record variation_result : Type := mkVariation {
  var_is_live : bool;
  variation_score : Z;
  var_msg : variation_message
}.

Record liveness_result : Type := mkLiveness {
  is_live : bool;
  confidence : Q;
  details_variation_score : Z;
  details_variation_threshold : Z;
  details_avg_ear : Q;
  details_blink_threshold : Q;
  liveness_msg : variation_message * blink_message
}.

(** [list.append(x)] followed by [pop(0)] when the list outgrew [cap] *)
Definition push_bounded {A} (h : list A) (x : A) (cap : nat) : list A :=
  let h1 := h ++ [x] in
  if (cap <? List.length h1)%nat then tl h1 else h1.

(** [cv2.absdiff] on two flattened uint8 images; differing sizes raise. *)
Fixpoint absdiff (a b : gray) : outcome gray :=
  match a, b with
  | [], [] => Returns []
  | x :: a', y :: b' =>
      match absdiff a' b' with
      | Returns r => Returns (Z.abs (x - y) :: r)
      | Raises => Raises
      end
  | _, _ => Raises
  end.

(** [np.sum] *)
Definition sum (g : gray) : Z := fold_right Z.add 0%Z g.

Definition psub (p q : point) : point := (fst p - fst q, snd p - snd q)%Z.

Definition reset (d : detector) : detector :=
  mkDetector (blink_threshold d) (frame_variation_threshold d) []
             (max_history d) [] (ear_history_len d) false.

Section Detector.

Variable image : Type.

(** [cv2.cvtColor(frame_rgb, cv2.COLOR_RGB2GRAY)] *)
Variable cvtColor : image -> outcome gray.
(** the dtype normalisation [(frame_rgb * 255).astype(np.uint8)],
    the identity on uint8 frames *)
Variable as_uint8 : image -> image.
(** [face_recognition.face_landmarks(frame_rgb)] *)
Variable face_landmarks : image -> outcome (list landmarks).
(** [np.linalg.norm] of a 2-vector *)
Variable norm : point -> Q.

(** [eye[i]]: an index out of range raises IndexError *)
Definition index (eye : list point) (i : nat) : outcome point :=
  match nth_error eye i with
  | Some p => Returns p
  | None => Raises
  end.

(** With a zero denominator numpy gives inf or nan where [Q] gives 0; the
    statements below hold for every sample value. *)
Definition compute_eye_aspect_ratio (eye : list point) : outcome Q :=
  match index eye 1, index eye 5, index eye 2, index eye 4, index eye 0, index eye 3 with
  | Returns p1, Returns p5, Returns p2, Returns p4, Returns p0, Returns p3 =>
      let A := norm (psub p1 p5) in
      let B := norm (psub p2 p4) in
      let C := norm (psub p0 p3) in
      Returns ((A + B) / (2 * C))
  | _, _, _, _, _, _ => Raises
  end.

Definition blink_failed : blink_result := mkBlink false 0 BlinkError.

Definition detect_blink_presence (frame_rgb : image) (d : detector)
  : blink_result * detector :=
  match face_landmarks (as_uint8 frame_rgb) with
  | Raises => (blink_failed, d)
  | Returns [] => (mkBlink false 0 NoLandmarks, d)
  | Returns (face :: _) =>
      match compute_eye_aspect_ratio (left_eye face) with
      | Raises => (blink_failed, d)
      | Returns left_ear =>
          match compute_eye_aspect_ratio (right_eye face) with
          | Raises => (blink_failed, d)
          | Returns right_ear =>
              let avg := (left_ear + right_ear) / 2 in
              let h := push_bounded (ear_history d) avg (ear_history_len d) in
              let blink :=
                if (List.length h =? ear_history_len d)%nat
                then
                  if existsb (fun ear => Qltb ear (blink_threshold d)) h
                     && Qltb (blink_threshold d) (last h 0)
                  then true else blink_detected d
                else blink_detected d in
              (mkBlink blink avg (if blink then BlinkDetected else NoBlinkDetected),
               set_ear d h blink)
          end
      end
  end.

Definition detect_frame_variation (frame_rgb : image) (d : detector)
  : variation_result * detector :=
  match cvtColor frame_rgb with
  | Raises => (mkVariation false 0 VariationError, d)
  | Returns g =>
      let h := push_bounded (frame_history d) g (max_history d) in
      let d' := set_frame_history d h in
      if (List.length h <? 2)%nat then
        (mkVariation true 0 AcquiringBaseline, d')
      else
        let frame1 := nth (List.length h - 2) h [] in
        let frame2 := last h [] in
        match absdiff frame1 frame2 with
        | Raises => (mkVariation false 0 VariationError, d')
        | Returns diff =>
            let score := sum diff in
            let live := (frame_variation_threshold d <? score)%Z in
            (mkVariation live score (if live then LiveFace else PossibleSpoof), d')
        end
  end.

Definition check_liveness (frame_rgb : image) (d : detector)
  : liveness_result * detector :=
  let (variation, d1) := detect_frame_variation frame_rgb d in
  let (blink, d2) := detect_blink_presence frame_rgb d1 in
  let live := var_is_live variation && has_blink blink in
  let variation_confidence := Qmin 1 (inject_Z (variation_score variation) / 5000) in
  let blink_confidence := if has_blink blink then 1 else 0 in
  (mkLiveness live ((variation_confidence + blink_confidence) / 2)
     (variation_score variation) (frame_variation_threshold d2)
     (avg_ear blink) (blink_threshold d2)
     (var_msg variation, blink_msg blink),
   d2).

(** feeding a stream of frames, one [check_liveness] call each *)
Fixpoint feed (frames : list image) (d : detector)
  : list liveness_result * detector :=
  match frames with
  | [] => ([], d)
  | f :: rest =>
      let (r, d1) := check_liveness f d in
      let (rs, d2) := feed rest d1 in
      (r :: rs, d2)
  end.

(** The public methods, as calls a client may issue in any order. *)
Inductive call : Type :=
| CheckLiveness (frame_rgb : image)
| DetectBlinkPresence (frame_rgb : image)
| DetectFrameVariation (frame_rgb : image)
| Reset.

Definition step (c : call) (d : detector) : detector :=
  match c with
  | CheckLiveness f => snd (check_liveness f d)
  | DetectBlinkPresence f => snd (detect_blink_presence f d)
  | DetectFrameVariation f => snd (detect_frame_variation f d)
  | Reset => reset d
  end.

Definition run (calls : list call) (d : detector) : detector :=
  fold_left (fun st c => step c st) calls d.

Definition is_reset (c : call) : bool :=
  match c with Reset => true | _ => false end.

End Detector.

End Spoof.

(** ** db.py *)

Module Db.

(** *** Clock values and their [strftime] renderings *)

Record date : Type := mkDate { year : Z; month : Z; day : Z }.
Record time : Type := mkTime { hour : Z; minute : Z; second : Z }.

Definition digits (n : Z) : string :=
  NilEmpty.string_of_uint (N.to_uint (Z.to_N n)).

Fixpoint zeros (n : nat) : string :=
  match n with
  | O => EmptyString
  | S n' => String "0"%char (zeros n')
  end.

(** Python's [f"{n:0{width}d}"] *)
Definition zero_pad (width : nat) (n : Z) : string :=
  if (n <? 0)%Z then
    let s := digits (- n) in
    String "-"%char (zeros (width - 1 - String.length s) ++ s)%string
  else
    let s := digits n in
    (zeros (width - String.length s) ++ s)%string.

(** [strftime("%Y-%m-%d")], for the years from 1000 on; below 1000 the
    C library decides whether [%Y] pads the year. *)
Definition strftime_Ymd (d : date) : string :=
  (zero_pad 4 (year d) ++ "-" ++ zero_pad 2 (month d) ++ "-" ++ zero_pad 2 (day d))%string.

(** [strftime("%H:%M:%S")] *)
Definition strftime_HMS (t : time) : string :=
  (zero_pad 2 (hour t) ++ ":" ++ zero_pad 2 (minute t) ++ ":" ++ zero_pad 2 (second t))%string.

(** *** The attendance table *)

Record row : Type := mkRow {
  id : Z;
  name : string;
  date_ : string;
  punch_in : string;
  punch_out : option string
}.

(** [rows] in insertion order; [last_id] is the AUTOINCREMENT counter. *)
Record database : Type := mkDb {
  rows : list row;
  last_id : Z
}.

Definition empty_db : database := mkDb [] 0.

(** Whether [sqlite3.connect] and the statements run, or raise. *)
Inductive sqlite_env : Type :=
| SqliteOk
| SqliteRaises.

Inductive action : Type :=
| punch_in_action
| punch_out_action
| none_action.

Inductive mark_message : Type :=
| PunchInRecorded (name : string) (at_time : string)
| PunchOutRecorded (name : string) (at_time : string)
| AlreadyMarked (name : string) (punch_out_time : string)
| MarkError.

Record mark_result : Type := mkMark {
  mark_success : bool;
  mark_action : action;
  mark_message_ : mark_message;
  timestamp : option string
}.

(** [SELECT id, punch_out FROM attendance WHERE name = ? AND date = ?
     ORDER BY id DESC LIMIT 1] *)
Definition matches (n d : string) (r : row) : bool :=
  String.eqb (name r) n && String.eqb (date_ r) d.

Fixpoint max_id_row (best : option row) (l : list row) : option row :=
  match l with
  | [] => best
  | r :: l' =>
      match best with
      | Some b => if (id b <? id r)%Z then max_id_row (Some r) l'
                  else max_id_row best l'
      | None => max_id_row (Some r) l'
      end
  end.

Definition select_latest (db : database) (n d : string) : option row :=
  max_id_row None (filter (matches n d) (rows db)).

(** [INSERT INTO attendance (name, date, punch_in, punch_out)
     VALUES (?, ?, ?, NULL)] *)
Definition insert (db : database) (n d t : string) : database :=
  let new_id := (last_id db + 1)%Z in
  mkDb (rows db ++ [mkRow new_id n d t None]) new_id.

(** [UPDATE attendance SET punch_out = ? WHERE id = ?] *)
Definition update_punch_out (db : database) (t : string) (rid : Z) : database :=
  mkDb (map (fun r => if (id r =? rid)%Z
                      then mkRow (id r) (name r) (date_ r) (punch_in r) (Some t)
                      else r) (rows db))
       (last_id db).

Definition mark_attendance (n : string) (today_ : date) (now : time)
           (env : sqlite_env) (db : database) : mark_result * database :=
  match env with
  | SqliteRaises => (mkMark false none_action MarkError None, db)
  | SqliteOk =>
      let today := strftime_Ymd today_ in
      let current_time := strftime_HMS now in
      match select_latest db n today with
      | None =>
          (mkMark true punch_in_action (PunchInRecorded n current_time)
                  (Some current_time),
           insert db n today current_time)
      | Some record =>
          match punch_out record with
          | None =>
              (mkMark true punch_out_action (PunchOutRecorded n current_time)
                      (Some current_time),
               update_punch_out db current_time (id record))
          | Some out =>
              (mkMark false none_action (AlreadyMarked n out) (Some out), db)
          end
      end
  end.

(** *** SQLite's [julianday] on the stored [HH:MM:SS] text *)

Definition digit_value (c : ascii) : option Z :=
  let n := Z.of_nat (nat_of_ascii c) in
  if ((48 <=? n) && (n <=? 57))%Z then Some (n - 48)%Z else None.

Definition two_digits (a b : ascii) : option Z :=
  match digit_value a, digit_value b with
  | Some x, Some y => Some (10 * x + y)%Z
  | _, _ => None
  end.

(** [HH:MM:SS] with HH in 0..24 and MM, SS in 0..59, as SQLite's
    [parseHhMmSs] accepts it; fractional seconds and time-zone suffixes,
    which [strftime("%H:%M:%S")] never produces, are not recognised. *)
Definition parse_HMS (s : string) : option (Z * Z * Z) :=
  match s with
  | String h1 (String h2 (String c1 (String m1 (String m2
      (String c2 (String s1 (String s2 EmptyString))))))) =>
      if (Ascii.eqb c1 ":"%char && Ascii.eqb c2 ":"%char)%bool then
        match two_digits h1 h2, two_digits m1 m2, two_digits s1 s2 with
        | Some h, Some m, Some sec =>
            if ((h <=? 24) && (m <=? 59) && (sec <=? 59))%Z
            then Some (h, m, sec) else None
        | _, _, _ => None
        end
      else None
  | _ => None
  end.

(** Milliseconds since the Julian epoch: a time without a date is taken on
    2000-01-01, whose midnight is Julian day 2451544.5. *)
Definition iJD (hms : Z * Z * Z) : Z :=
  let '(h, m, s) := hms in
  (211813444800000 + h * 3600000 + m * 60000 + s * 1000)%Z.

(** [julianday(text)]: [iJD / 86400000.0] in binary64, NULL when unparsable *)
Definition julianday (s : string) : option float :=
  match parse_HMS s with
  | Some hms => Some (PrimFloat.div (PrimFloat.of_uint63 (Uint63.of_Z (iJD hms)))
                                    86400000%float)
  | None => None
  end.

(** [CASE WHEN punch_out IS NOT NULL
          THEN (julianday(punch_out) - julianday(punch_in)) * 24
          ELSE NULL END] *)
Definition hours_worked (r : row) : option float :=
  match punch_out r with
  | Some out =>
      match julianday out, julianday (punch_in r) with
      | Some jo, Some ji => Some (PrimFloat.mul (PrimFloat.sub jo ji) 24%float)
      | _, _ => None
      end
  | None => None
  end.

(** One line of the DataFrame returned by the monthly query. *)
Record df_row : Type := mkDfRow {
  df_name : string;
  df_date : string;
  df_punch_in : string;
  df_punch_out : option string;
  df_hours_worked : option float
}.

Definition select_row (r : row) : df_row :=
  mkDfRow (name r) (date_ r) (punch_in r) (punch_out r) (hours_worked r).

(** SQLite compares TEXT bytewise. *)
Definition text_lt (a b : string) : bool :=
  match String.compare a b with Lt => true | _ => false end.
Definition text_le (a b : string) : bool :=
  match String.compare a b with Gt => false | _ => true end.

(** [ORDER BY date DESC, punch_in] *)
Definition order_before (a b : row) : bool :=
  text_lt (date_ b) (date_ a)
  || (String.eqb (date_ a) (date_ b) && text_le (punch_in a) (punch_in b)).

Fixpoint insert_sorted (r : row) (l : list row) : list row :=
  match l with
  | [] => [r]
  | x :: l' => if order_before x r then x :: insert_sorted r l' else r :: x :: l'
  end.

Definition order_by (l : list row) : list row :=
  fold_left (fun acc r => insert_sorted r acc) l [].

Definition get_monthly_attendance (y m : Z) (env : sqlite_env) (db : database)
  : list df_row :=
  match env with
  | SqliteRaises => []
  | SqliteOk =>
      let start_date := (zero_pad 4 y ++ "-" ++ zero_pad 2 m ++ "-01")%string in
      let end_date :=
        if (m =? 12)%Z then (zero_pad 4 (y + 1) ++ "-01-01")%string
        else (zero_pad 4 y ++ "-" ++ zero_pad 2 (m + 1) ++ "-01")%string in
      map select_row
          (order_by
             (filter (fun r => text_le start_date (date_ r)
                               && text_lt (date_ r) end_date)
                     (rows db)))
  end.

Record summary : Type := mkSummary {
  total_days_present : Z;
  total_hours : float;
  days_with_punch_out : Z;
  incomplete_days : Z
}.

Definition empty_summary : summary := mkSummary 0 0%float 0 0.

Definition notna {A} (o : option A) : bool :=
  match o with Some _ => true | None => false end.

(** pandas [Series.sum()]: missing values are skipped; the additions are
    taken left to right *)
Definition series_sum (l : list (option float)) : float :=
  fold_left (fun acc o => match o with
                          | Some x => PrimFloat.add acc x
                          | None => acc
                          end) l 0%float.

Definition get_user_attendance_summary (n : string) (y m : Z)
           (env : sqlite_env) (db : database) : summary :=
  let df := get_monthly_attendance y m env db in
  match df with
  | [] => empty_summary
  | _ =>
      let user_df := filter (fun r => String.eqb (df_name r) n) df in
      match user_df with
      | [] => empty_summary
      | _ =>
          let total := Z.of_nat (List.length user_df) in
          let with_out :=
            Z.of_nat (List.length (filter (fun r => notna (df_punch_out r)) user_df)) in
          let incomplete := (total - with_out)%Z in
          let hours := series_sum (map df_hours_worked user_df) in
          mkSummary total
                    (if PrimFloat.eqb hours 0%float then 0%float else hours)
                    with_out incomplete
      end
  end.

(** [ORDER BY punch_in] *)
Fixpoint insert_by_punch_in (r : row) (l : list row) : list row :=
  match l with
  | [] => [r]
  | x :: l' =>
      if text_le (punch_in x) (punch_in r) then x :: insert_by_punch_in r l'
      else r :: x :: l'
  end.

Definition get_today_attendance (today_ : date) (env : sqlite_env)
           (db : database) : list df_row :=
  match env with
  | SqliteRaises => []
  | SqliteOk =>
      let today := strftime_Ymd today_ in
      map select_row
          (fold_left (fun acc r => insert_by_punch_in r acc)
                     (filter (fun r => String.eqb (date_ r) today) (rows db))
                     [])
  end.

(** [SELECT DISTINCT name FROM attendance ORDER BY name] *)
Fixpoint insert_name (n : string) (l : list string) : list string :=
  match l with
  | [] => [n]
  | x :: l' =>
      match String.compare n x with
      | Lt => n :: x :: l'
      | Eq => x :: l'
      | Gt => x :: insert_name n l'
      end
  end.

Definition get_all_users (env : sqlite_env) (db : database) : list string :=
  match env with
  | SqliteRaises => []
  | SqliteOk => fold_left (fun acc r => insert_name (name r) acc) (rows db) []
  end.

End Db.

(** ** camera.py *)

Module Camera.

Section Handler.

(** a [cv2.VideoCapture] object *)
Variable device : Type.
Variable image : Type.

(** [cv2.flip(frame, 1)] and [cv2.cvtColor(frame, cv2.COLOR_BGR2RGB)] *)
Variable flip : image -> outcome image.
Variable cvtColor : image -> outcome image.

Inductive ui_event : Type :=
| ErrCameraAccess
| ErrOpeningCamera
| ErrCapturingFrame.

Record camera_handler : Type := mkCamera {
  camera_index : Z;
  cap : option device;
  shown : list ui_event
}.

(** [CameraHandler(camera_index)] *)
Definition new_handler (index : Z) : camera_handler := mkCamera index None [].

Definition set_cap (c : camera_handler) (d : option device) : camera_handler :=
  mkCamera (camera_index c) d (shown c).
Definition show (c : camera_handler) (ev : ui_event) : camera_handler :=
  mkCamera (camera_index c) (cap c) (shown c ++ [ev]).

(** What cv2 does during [open_camera]: the constructor raises, or it
    returns a device whose property settings and test read raise or
    answer [ret]. *)
Inductive open_env : Type :=
| ConstructorRaises
| Constructed (dev : device) (test_read : outcome bool).

Definition open_camera (env : open_env) (c : camera_handler)
  : bool * camera_handler :=
  match env with
  | ConstructorRaises => (false, show c ErrOpeningCamera)
  | Constructed dev test_read =>
      let c1 := set_cap c (Some dev) in
      match test_read with
      | Raises => (false, show c1 ErrOpeningCamera)
      | Returns false => (false, show c1 ErrCameraAccess)
      | Returns true => (true, c1)
      end
  end.

(** [self.cap.read()]: raises, or returns [(ret, frame)] with no frame when
    [ret] is false. *)
Definition read_env : Type := outcome (option image).

Definition capture_frame (env : read_env) (c : camera_handler)
  : (option image * bool) * camera_handler :=
  match cap c with
  | None => ((None, false), c)
  | Some _ =>
      match env with
      | Raises => ((None, false), show c ErrCapturingFrame)
      | Returns None => ((None, false), c)
      | Returns (Some frame) =>
          match flip frame with
          | Raises => ((None, false), show c ErrCapturingFrame)
          | Returns mirrored =>
              match cvtColor mirrored with
              | Raises => ((None, false), show c ErrCapturingFrame)
              | Returns frame_rgb => ((Some frame_rgb, true), c)
              end
          end
      end
  end.

(** [get_frame_dimensions], given what the two [cap.get] calls answer *)
Definition get_frame_dimensions (width height : Z) (c : camera_handler)
  : option Z * option Z :=
  match cap c with
  | None => (None, None)
  | Some _ => (Some width, Some height)
  end.

Definition release_camera (c : camera_handler) : camera_handler :=
  match cap c with
  | Some _ => set_cap c None
  | None => c
  end.

(** [get_camera(camera_index)] on the handler kept in the session, if any *)
Definition get_camera (index : Z) (session : option camera_handler)
  : camera_handler :=
  match session with
  | Some c => if (camera_index c =? index)%Z then c else new_handler index
  | None => new_handler index
  end.

End Handler.

End Camera.

(** ** app.py: the two flows that drive the core *)

Module App.

Section Pages.

Variable image : Type.
Variable location : Type.
Variable face_locations : image -> outcome (list location).
Variable face_encodings : image -> location -> outcome (list FaceUtils.encoding).
Variable norm : FaceUtils.encoding -> Q.
Variable cvtColor : image -> outcome Spoof.gray.
Variable as_uint8 : image -> image.
Variable face_landmarks : image -> outcome (list Spoof.landmarks).
Variable norm2 : Spoof.point -> Q.

Inductive liveness_outcome : Type :=
| LivenessPassed (captured_frame : image)
| CaptureFailed
| LivenessFailed.

(** The [for i in range(30)] loop of [page_register_face]; [capture i] is
    what [camera.capture_frame()] returns in iteration [i]. *)
Fixpoint liveness_loop (budget i : nat) (capture : nat -> option image)
         (d : Spoof.detector) : liveness_outcome * Spoof.detector :=
  match budget with
  | O => (LivenessFailed, d)
  | S budget' =>
      match capture i with
      | None => (CaptureFailed, d)
      | Some frame_rgb =>
          let (r, d1) :=
            Spoof.check_liveness cvtColor as_uint8 face_landmarks norm2
                                 frame_rgb d in
          if Spoof.is_live r then (LivenessPassed frame_rgb, d1)
          else liveness_loop budget' (S i) capture d1
      end
  end.

(** Pressing "start liveness check": [detector.reset()], then the loop. *)
Definition start_liveness_check (capture : nat -> option image)
           (d : Spoof.detector) : liveness_outcome * Spoof.detector :=
  liveness_loop 30 0 capture (Spoof.reset d).

Inductive attendance_outcome : Type :=
| NoRegisteredFaces
| FrameNotCaptured
| NotRecognized (message : FaceUtils.recognize_message)
| Attendance (recognized : string) (result : Db.mark_result).

(** [page_mark_attendance] once the camera is open: [frame] is what
    [camera.capture_frame()] returned. *)
Definition page_mark_attendance (frame : option image)
           (today : Db.date) (now : Db.time) (env : Db.sqlite_env)
           (e : FaceUtils.engine) (db : Db.database)
  : attendance_outcome * FaceUtils.engine * Db.database :=
  if (FaceUtils.get_user_count e =? 0)%nat then (NoRegisteredFaces, e, db)
  else
    match frame with
    | None => (FrameNotCaptured, e, db)
    | Some frame_rgb =>
        let (r, e1) :=
          FaceUtils.recognize_face face_locations face_encodings norm
                                   frame_rgb e in
        if FaceUtils.success r then
          match FaceUtils.name r with
          | Some n =>
              let (a, db1) := Db.mark_attendance n today now env db in
              (Attendance n a, e1, db1)
          | None => (NotRecognized (FaceUtils.message r), e1, db)
          end
        else (NotRecognized (FaceUtils.message r), e1, db)
    end.

End Pages.

End App.

(** * Specification vocabulary and sample inputs *)

(** ** Binary64 values as rationals *)

Module Binary64.

(** The rational a finite float stands for; infinities and NaN have none. *)
Definition SFvalue (x : spec_float) : option Q :=
  match x with
  | S754_zero _ => Some 0
  | S754_finite s m e =>
      Some ((if s then -1 else 1) * inject_Z (Zpos m) * Qpower 2 e)
  | _ => None
  end.

Definition float_value (f : float) : option Q := SFvalue (Prim2SF f).

(** The mantissa of 24.0, whose exponent is -48. *)
Definition m24 : positive := 6755399441055744.

End Binary64.

(** ** Matcher *)

Module MatcherSpec.
Import FaceUtils.

(** [d] is a smallest element of [ds]. *)
Definition is_minimum (d : Q) (ds : list Q) : Prop :=
  In d ds /\ forall x, In x ds -> d <= x.

(** The sum of absolute values; on a vector with at most one non-zero
    coordinate it is the Euclidean norm. *)
Definition norm_axis (v : encoding) : Q :=
  fold_right (fun x acc => Qabs x + acc) 0 v.

(** A test camera: the image is the embedding of the single face in it. *)
Definition one_face (image_rgb : encoding) : outcome (list unit) :=
  Returns [tt].
Definition embed (image_rgb : encoding) (loc : unit) : outcome (list encoding) :=
  Returns [image_rgb].

Definition empty_engine : engine := mkEngine (6 # 10) [] NoFile [].

Definition alice_engine : engine :=
  mkEngine (6 # 10) [("alice"%string, [[0]])] NoFile [].

End MatcherSpec.

(** ** Matcher in binary64 *)

#[local] Set Warnings "-inexact-float".

Module MatcherSpec64.
Import FaceUtils64 Binary64.







(** A test camera: the image is the embedding of the single face in it. *)
Definition one_face (image_rgb : encoding) : outcome (list unit) :=
  Returns [tt].
Definition embed (image_rgb : encoding) (loc : unit)
  : outcome (list encoding) :=
  Returns [image_rgb].



End MatcherSpec64.

(** ** Rounded results *)

Module RoundingSpec.




End RoundingSpec.

(** ** Liveness session *)

Module LivenessSpec.
Import Spoof.

(** The window is full, holds a sample below the blink threshold, and its
    most recent sample is above the threshold. *)
Definition blink_pattern (d : detector) : Prop :=
  List.length (ear_history d) = ear_history_len d /\
  (exists s, In s (ear_history d) /\ s < blink_threshold d) /\
  blink_threshold d < last (ear_history d) 0.

(** A session nobody has fed yet: what [LivenessDetector(...)] builds and
    what [reset()] restores. *)
Definition fresh (d : detector) : Prop :=
  frame_history d = [] /\ ear_history d = [] /\
  blink_detected d = false /\ max_history d = 5%nat.

(** The invariant behind the flag: a state showing the blink pattern has
    the flag set. *)
Definition flag_follows_pattern (d : detector) : Prop :=
  blink_pattern d -> blink_detected d = true.

(** The frame buffer holds at least one frame and only copies of [g]. *)
Definition static_history (g : gray) (d : detector) : Prop :=
  frame_history d <> [] /\ Forall (eq g) (frame_history d) /\
  max_history d = 5%nat /\ (0 <= frame_variation_threshold d)%Z.

(** A test frame: its grayscale pixels and the landmarks found in it. *)
Definition frame : Type := (gray * list landmarks)%type.

Definition to_gray (f : frame) : outcome gray := Returns (fst f).
Definition same_frame (f : frame) : frame := f.
Definition landmarks_of (f : frame) : outcome (list landmarks) := Returns (snd f).

(** [|x| + |y|], the Euclidean norm of an axis-parallel vector. *)
Definition norm_axis (p : point) : Q :=
  Qabs (inject_Z (fst p)) + Qabs (inject_Z (snd p)).

(** An eye 10 pixels wide and [a] pixels high: its aspect ratio is a/10. *)
Definition eye (a : Z) : list point :=
  [(0, 0); (3, a); (6, a); (10, 0); (6, 0); (3, 0)]%Z.

Definition face_frame (a : Z) : frame :=
  ([0; 0; 0; 0]%Z, [mkLandmarks (eye a) (eye a)]).

Definition eyes_closed : frame := face_frame 1.
Definition eyes_open : frame := face_frame 3.

(** Ten frames of one still picture: a blink at the start, eyes open after. *)
Definition still_blink : list frame := eyes_closed :: repeat eyes_open 9.

End LivenessSpec.

(** ** Ledger *)

Module LedgerSpec.
Import Db.

(** The AUTOINCREMENT invariant: no stored id exceeds the counter. *)
Definition ids_bounded (db : database) : Prop :=
  Forall (fun r => (id r <= last_id db)%Z) (rows db).


Definition valid_time (t : time) : Prop :=
  (0 <= hour t < 24 /\ 0 <= minute t < 60 /\ 0 <= second t < 60)%Z.

Definition seconds_of (t : time) : Z :=
  (hour t * 3600 + minute t * 60 + second t)%Z.

(** [julianday] of the time of day [sec] seconds after midnight. *)
Definition julianday_at (sec : Z) : float :=
  PrimFloat.div
    (PrimFloat.of_uint63 (Uint63.of_Z (211813444800000 + 1000 * sec)))
    86400000%float.

Definition julianday_of (t : time) : float := julianday_at (seconds_of t).

(** The mantissa of 2451544.5 (midnight of 2000-01-01) at exponent -31. *)
Definition midnight_mantissa : Z := 5264651726094336.

(** The float [julianday_at sec] is the multiple of 2^-31 nearest to the
    exact day number, and lies within the day. *)
Definition julianday_rounded (sec : Z) : bool :=
  match Prim2SF (julianday_at sec) with
  | S754_finite s m e =>
      negb s && (e =? -31)%Z
      && (Z.abs (Zpos m * 86400000
                 - (211813444800000 + 1000 * sec) * 2147483648) <=? 43200000)%Z
      && (midnight_mantissa <=? Zpos m)%Z
      && (Zpos m <=? midnight_mantissa + 2147483648)%Z
  | _ => false
  end.

Definition range (n : nat) : list Z := map Z.of_nat (seq 0 n).

Definition roundtrips (h m s : Z) : bool :=
  match parse_HMS (strftime_HMS (mkTime h m s)) with
  | Some (h', m', s') => ((h =? h') && (m =? m') && (s =? s'))%Z
  | None => false
  end.

(** pandas' truthiness test on the total: [float(x) if x else 0.0] *)
Definition or_zero (x : float) : float :=
  if PrimFloat.eqb x 0%float then 0%float else x.

Definition completed (r : df_row) : bool := notna (df_punch_out r).

(** The rows of user [n] in the month's DataFrame. *)
Definition user_df (n : string) (y m : Z) (env : sqlite_env) (db : database)
  : list df_row :=
  filter (fun r => String.eqb (df_name r) n) (get_monthly_attendance y m env db).

Definition nine : time := mkTime 9 0 0.
Definition half_past_five : time := mkTime 17 30 0.
Definition march_7 : date := mkDate 2024 3 7.

Definition full_day : row :=
  mkRow 1 "alice" "2024-03-07" "09:00:00" (Some "17:30:00"%string).

End LedgerSpec.

(** * Vocabulary of the further properties *)

Module GalleryVocabulary.
Import FaceUtils MatcherSpec.

(** A test camera that finds no face. *)
Definition no_face (image_rgb : encoding) : outcome (list unit) := Returns [].

(** Two users with the same embedding, "alice" enrolled first. *)
Definition two_users : engine :=
  mkEngine (6 # 10) [("alice"%string, [[0]]); ("bob"%string, [[0]])] NoFile [].

(** An engine whose file holds its gallery. *)
Definition saved_engine : engine :=
  mkEngine (6 # 10) [("alice"%string, [[0]])]
           (Pickled [("alice"%string, [[0]])]) [].

End GalleryVocabulary.

Module LivenessVocabulary.
Import Spoof.

(** The constructor arguments and [max_history]. *)
Definition parameters (d : detector) : Q * Z * nat * nat :=
  (blink_threshold d, frame_variation_threshold d, max_history d,
   ear_history_len d).

Definition buffers_bounded (d : detector) : Prop :=
  (List.length (frame_history d) <= max_history d)%nat /\
  (List.length (ear_history d) <= ear_history_len d)%nat.

(** Nine frames: one short of the default window. *)
Definition warm_up : list LivenessSpec.frame :=
  LivenessSpec.eyes_closed :: repeat LivenessSpec.eyes_open 8.

(** A frame in which no face is found. *)
Definition no_landmarks : LivenessSpec.frame := ([0; 0; 0; 0]%Z, []).

(** The open-eyed face, every pixel brighter by 200. *)
Definition moved : LivenessSpec.frame :=
  ([200; 200; 200; 200]%Z,
   [mkLandmarks (LivenessSpec.eye 3) (LivenessSpec.eye 3)]).

(** The default detector after one frame, and after the ten frames of
    [still_blink]. *)
Definition after_one_frame : detector :=
  snd (check_liveness LivenessSpec.to_gray LivenessSpec.same_frame
                      LivenessSpec.landmarks_of LivenessSpec.norm_axis
                      LivenessSpec.eyes_open default).

Definition after_blink : detector :=
  snd (feed LivenessSpec.to_gray LivenessSpec.same_frame
            LivenessSpec.landmarks_of LivenessSpec.norm_axis
            LivenessSpec.still_blink default).

End LivenessVocabulary.

Module LedgerVocabulary.
Import Db LedgerSpec.

(** At most one row per user and day. *)
Definition one_row_per_day (db : database) : Prop :=
  forall n d, (List.length (filter (matches n d) (rows db)) <= 1)%nat.

Definition distinct_ids (db : database) : Prop :=
  NoDup (map id (rows db)).

(** what [UPDATE ... SET punch_out = ? WHERE id = ?] does to one row *)
Definition punch_out_row (t : string) (rid : Z) (r : row) : row :=
  if (id r =? rid)%Z
  then mkRow (id r) (name r) (date_ r) (punch_in r) (Some t)
  else r.

(** the [WHERE date >= ? AND date < ?] of the monthly query *)
Definition in_month (y m : Z) (r : row) : bool :=
  let start_date := (zero_pad 4 y ++ "-" ++ zero_pad 2 m ++ "-01")%string in
  let end_date :=
    if (m =? 12)%Z then (zero_pad 4 (y + 1) ++ "-01-01")%string
    else (zero_pad 4 y ++ "-" ++ zero_pad 2 (m + 1) ++ "-01")%string in
  text_le start_date (date_ r) && text_lt (date_ r) end_date.

Definition pad2_ordered (a b : Z) : bool :=
  (String.length (zero_pad 2 a) =? 2)%nat &&
  match String.compare (zero_pad 2 a) (zero_pad 2 b), Z.compare a b with
  | Eq, Eq | Lt, Lt | Gt, Gt => true
  | _, _ => false
  end.

Definition pad4_splits (hi lo : Z) : bool :=
  String.eqb (zero_pad 4 (100 * hi + lo)) (zero_pad 2 hi ++ zero_pad 2 lo).

(** lexicographic comparison of (year, month, day) *)
Definition compare_ymd (y m d y' m' d' : Z) : comparison :=
  match Z.compare y y' with
  | Eq => match Z.compare m m' with
          | Eq => Z.compare d d'
          | c => c
          end
  | c => c
  end.

Definition name_lt (a b : string) : Prop := String.compare a b = Lt.

(** [ORDER BY date DESC, punch_in] on the lines of a DataFrame *)
Definition df_before (a b : df_row) : Prop :=
  text_lt (df_date b) (df_date a)
  || (String.eqb (df_date a) (df_date b)
      && text_le (df_punch_in a) (df_punch_in b)) = true.

Definition df_punch_in_le (a b : df_row) : Prop :=
  text_le (df_punch_in a) (df_punch_in b) = true.

(** A table holding the completed day of "alice". *)
Definition march_db : database := mkDb [full_day] 1.

(** A table with one open row of "bob". *)
Definition bob_db : database :=
  mkDb [mkRow 1 "bob" "2024-03-07" "08:00:00" None] 1.

Section Insertion.

Variable A : Type.
Variable leb : A -> A -> bool.

(** insertion into a list ordered by [leb], after the entries not above *)
Fixpoint insert_leb (r : A) (l : list A) : list A :=
  match l with
  | [] => [r]
  | x :: l' => if leb x r then x :: insert_leb r l' else r :: x :: l'
  end.

End Insertion.

End LedgerVocabulary.

Module AppVocabulary.
Import App.

(** the loop did not end with a captured frame *)
Definition not_passed {image : Type} (o : liveness_outcome image) : Prop :=
  match o with
  | LivenessPassed _ => False
  | _ => True
  end.

(** A camera that delivers the same picture in every iteration. *)
Definition still_camera (i : nat) : option LivenessSpec.frame :=
  Some LivenessSpec.eyes_open.

End AppVocabulary.

Module CameraVocabulary.

(** Test images are numbers: mirroring negates, the colour conversion
    keeps the number. *)
Definition mirror (frame : Z) : outcome Z := Returns (- frame)%Z.
Definition to_rgb (frame : Z) : outcome Z := Returns frame.

(** A handler on which [open_camera] created the device. *)
Definition opened : Camera.camera_handler unit :=
  Camera.mkCamera 0 (Some tt) [].

End CameraVocabulary.

(** * Properties *)

Unset Implicit Arguments.

(** ** Facts about the dict operations *)

Module DictFacts.
Import Dict.

Lemma get_set_same {V} (d : dict V) k v : get (set d k v) k = Some v.
Proof.
  induction d as [|[k' v'] d IH]; simpl.
  - now rewrite String.eqb_refl.
  - destruct (String.eqb k k') eqn:E; simpl; rewrite E; auto.
Qed.

Lemma mem_keys {V} (d : dict V) k : mem d k = true <-> In k (keys d).
Proof.
  unfold mem. induction d as [|[k' v'] d IH]; simpl.
  - split; [discriminate | tauto].
  - destruct (String.eqb k k') eqn:E.
    + apply String.eqb_eq in E. subst. split; auto.
    + apply String.eqb_neq in E. rewrite IH. split; [auto | intros [H|H]; congruence].
Qed.

Lemma set_fresh {V} (d : dict V) k v : mem d k = false -> set d k v = d ++ [(k, v)].
Proof.
  unfold mem. induction d as [|[k' v'] d IH]; simpl; auto.
  destruct (String.eqb k k') eqn:E; [discriminate|].
  intros H. now rewrite IH.
Qed.

Lemma del_fresh {V} (d : dict V) k : mem d k = false -> del d k = d.
Proof.
  unfold mem. induction d as [|[k' v'] d IH]; simpl; auto.
  destruct (String.eqb k k') eqn:E; [discriminate|].
  intros H. now rewrite IH.
Qed.

Lemma set_app_same {V} (d : dict V) k v v' :
mem d k = false -> set (d ++ [(k, v)]) k v' = d ++ [(k, v')].
Proof.
unfold mem. induction d as [|[k0 v0] d IH]; simpl.
- now rewrite String.eqb_refl.
- destruct (String.eqb k k0) eqn:E; [discriminate|].
  intros H. now rewrite IH.
Qed.

Lemma del_app_fresh {V} (d : dict V) k v :
  mem d k = false -> del (d ++ [(k, v)]) k = d.
Proof.
  unfold mem. induction d as [|[k' v'] d IH]; simpl.
  - now rewrite String.eqb_refl.
  - destruct (String.eqb k k') eqn:E; [discriminate|].
    intros H. now rewrite IH.
Qed.

End DictFacts.

(** ** Comparison helpers *)

Lemma Qltb_lt (a b : Q) : Qltb a b = true <-> a < b.
Proof.
  unfold Qltb. rewrite negb_true_iff. split; intros H.
  - apply Qnot_le_lt. intros Hle. apply Qle_bool_iff in Hle. congruence.
  - destruct (Qle_bool b a) eqn:E; auto.
    apply Qle_bool_iff in E. exfalso. now apply (Qlt_not_le a b).
Qed.

Lemma Qltb_ge (a b : Q) : Qltb a b = false <-> b <= a.
Proof.
  unfold Qltb. rewrite negb_false_iff. apply Qle_bool_iff.
Qed.

(** ** The matcher: [recognize_face], [register_face], [delete_user] *)

Module FaceUtilsProofs.
Import FaceUtils MatcherSpec.

Lemma norm_axis_nonneg (v : encoding) : 0 <= norm_axis v.
Proof.
  induction v as [|x v IH]; simpl.
  - apply Qle_refl.
  - pose proof (Qabs_nonneg x). lra.
Qed.

Lemma argmin_from_spec (l pre : list Q) (best_i i : nat) (best : Q) :
  List.length pre = i ->
  (best_i < i)%nat ->
  nth best_i (pre ++ l) 0 = best ->
  (forall x, In x pre -> best <= x) ->
  let k := argmin_from best_i best i l in
  (k < List.length (pre ++ l))%nat /\
  forall x, In x (pre ++ l) -> nth k (pre ++ l) 0 <= x.
Proof.
  revert pre best_i i best.
  induction l as [|y l IH]; intros pre best_i i best Hlen Hlt Hnth Hmin; simpl.
  - rewrite app_nil_r in *. split; [lia|].
    intros x Hx. rewrite Hnth. auto.
  - assert (Happ : pre ++ y :: l = (pre ++ [y]) ++ l)
      by (rewrite <- app_assoc; reflexivity).
    destruct (Qltb y best) eqn:E.
    + apply Qltb_lt in E.
      rewrite Happ. apply IH.
      * rewrite length_app. simpl. lia.
      * lia.
      * rewrite <- Happ, app_nth2 by lia.
        replace (i - List.length pre)%nat with 0%nat by lia. reflexivity.
      * intros x Hx. apply in_app_or in Hx. destruct Hx as [Hx|[<-|[]]].
        -- apply Qle_trans with best; [now apply Qlt_le_weak | auto].
        -- apply Qle_refl.
    + apply Qltb_ge in E.
      rewrite Happ. apply IH.
      * rewrite length_app. simpl. lia.
      * lia.
      * now rewrite <- Happ.
      * intros x Hx. apply in_app_or in Hx. destruct Hx as [Hx|[<-|[]]]; auto.
Qed.

Lemma argmin_spec (l : list Q) :
  l <> [] ->
  (argmin l < List.length l)%nat /\ is_minimum (nth (argmin l) l 0) l.
Proof.
  destruct l as [|x l]; [congruence|]. intros _.
  destruct (argmin_from_spec l [x] 0%nat 1%nat x) as [Hk Hmin]; auto.
  - simpl. intros y [<-|[]]. apply Qle_refl.
  - unfold is_minimum. simpl app in *. fold (argmin (x :: l)) in *.
    split; [exact Hk|]. split; [|exact Hmin].
    apply nth_In. exact Hk.
Qed.

Lemma names_length (g : gallery) :
  List.length (all_known_names g) = List.length (all_known_encodings g).
Proof.
  unfold all_known_names, all_known_encodings, Dict.items.
  induction g as [|[u encs] g IH]; simpl; auto.
  now rewrite !length_app, length_map, IH.
Qed.

(** Entry [i] of the names list is the owner of entry [i] of the encodings
    list. *)
Lemma names_aligned (g : gallery) (i : nat) :
  (i < List.length (all_known_encodings g))%nat ->
  exists encs,
    In (nth i (all_known_names g) EmptyString, encs) g /\
    In (nth i (all_known_encodings g) []) encs.
Proof.
  unfold all_known_names, all_known_encodings, Dict.items.
  revert i. induction g as [|[u encs] g IH]; simpl; intros i Hi; [lia|].
  rewrite length_app in Hi.
  destruct (Nat.lt_ge_cases i (List.length encs)) as [Hlt|Hge].
  - exists encs. rewrite !app_nth1 by (rewrite ?length_map; lia).
    split.
    + left. f_equal.
      assert (Hin : In (nth i (map (fun _ : encoding => u) encs) EmptyString)
                       (map (fun _ : encoding => u) encs))
        by (apply nth_In; rewrite length_map; lia).
      apply in_map_iff in Hin. destruct Hin as [? [Hu _]]. exact Hu.
    + now apply nth_In.
  - rewrite !app_nth2 by (rewrite ?length_map; lia).
    rewrite length_map.
    destruct (IH (i - List.length encs)%nat) as [encs' [H1 H2]]; [lia|].
    exists encs'. split; [right|]; assumption.
Qed.

Section Matcher.

Variable image : Type.
Variable location : Type.
Variable face_locations : image -> outcome (list location).
Variable face_encodings : image -> location -> outcome (list encoding).
Variable norm : encoding -> Q.

Lemma stored_nonempty (g : gallery) :
  all_known_encodings g <> [] -> Dict.is_empty g = false.
Proof.
  destruct g; cbn; [congruence | reflexivity].
Qed.

(** A gallery with an identity, each identity holding an embedding (what
    [register_face] builds), stores at least one embedding. *)
Lemma enrolled_gallery_stores_embedding (g : gallery) :
  g <> [] -> Forall (fun item => snd item <> []) g ->
  all_known_encodings g <> [].
Proof.
  intros Hne Hall. destruct g as [|[u encs] g]; [congruence|].
  inversion Hall as [|? ? Hencs _]; subst. cbn in *.
  destruct encs; [congruence | discriminate].
Qed.

(** What [recognize_face] returns once one face was found and encoded and
    the gallery stores at least one embedding. *)
Lemma recognize_face_scan img loc probe more e :
  face_locations img = Returns [loc] ->
  face_encodings img loc = Returns (probe :: more) ->
  all_known_encodings (known_faces e) <> [] ->
  let ds := face_distance norm (all_known_encodings (known_faces e)) probe in
  let i := argmin ds in
  let best := nth i ds 0 in
  recognize_face face_locations face_encodings norm img e =
  (if Qltb best (tolerance e) then
     let u := nth i (all_known_names (known_faces e)) EmptyString in
     mkRecognize true (Some u) (1 - best / tolerance e) (MsgRecognized u) ds
   else mkRecognize false None 0 (MsgNotRecognized best) ds,
   e).
Proof.
  intros Hloc Henc Hne ds i best.
  unfold recognize_face, detect_faces, generate_encoding.
  rewrite Hloc, Henc. cbn zeta iota beta.
  rewrite (stored_nonempty _ Hne).
  fold ds.
  assert (Hlen : (List.length ds =? 0)%nat = false).
  { apply Nat.eqb_neq. unfold ds, face_distance. rewrite length_map.
    destruct (all_known_encodings (known_faces e)); simpl; congruence. }
  rewrite Hlen. fold i. fold best.
  destruct (Qltb best (tolerance e)); reflexivity.
Qed.

(** C5. With exactly one detected face and nothing enrolled,
    [recognize_face] returns the "no registered users" outcome, whatever the
    encoder and the distance would give: neither is consulted, and the
    below-threshold outcome is never produced. *)
Theorem recognize_face_empty_gallery img loc e :
  face_locations img = Returns [loc] ->
  known_faces e = [] ->
  recognize_face face_locations face_encodings norm img e =
    (mkRecognize false None 0 MsgNoRegisteredUsers [], e)
  /\ forall d,
      message (fst (recognize_face face_locations face_encodings norm img e))
      <> MsgNotRecognized d.
Proof.
  intros Hloc Hg.
  assert (Heq : recognize_face face_locations face_encodings norm img e =
                (mkRecognize false None 0 MsgNoRegisteredUsers [], e)).
  { unfold recognize_face, detect_faces. rewrite Hloc. cbn zeta iota beta.
    rewrite Hg. reflexivity. }
  split; [exact Heq|].
  intros d. rewrite Heq. simpl. discriminate.
Qed.

(** C10. Whatever it returns, [recognize_face] leaves the gallery, the
    pickle file and the tolerance as they were; the only part of the engine
    state that can change is the list of messages shown to the user. *)
Theorem recognize_face_preserves_gallery img e :
  let e' := snd (recognize_face face_locations face_encodings norm img e) in
  known_faces e' = known_faces e /\
  encodings_file e' = encodings_file e /\
  tolerance e' = tolerance e /\
  exists shown, ui e' = ui e ++ shown.
Proof.
  unfold recognize_face, detect_faces, generate_encoding.
  destruct (face_locations img) as [[|loc [|loc' locs]]|]; cbn zeta iota beta.
  - repeat split. exists []. simpl. now rewrite app_nil_r.
  - destruct (Dict.is_empty (known_faces e)).
    + repeat split. exists []. simpl. now rewrite app_nil_r.
    + destruct (face_encodings img loc) as [[|probe more]|]; cbn zeta iota beta.
      * repeat split. exists []. simpl. now rewrite app_nil_r.
      * destruct (List.length _ =? 0)%nat; [|destruct (Qltb _ _)];
          repeat split; exists []; simpl; now rewrite app_nil_r.
      * repeat split. now exists [ErrGenerateEncoding].
  - repeat split. exists []. simpl. now rewrite app_nil_r.
  - repeat split. now exists [ErrDetectFaces].
Qed.

(** What [register_face] does once one face was found and encoded. *)
Lemma register_face_stores img user loc enc more w e :
  face_locations img = Returns [loc] ->
  face_encodings img loc = Returns (enc :: more) ->
  register_face face_locations face_encodings img user w e =
  (mkRegister true
     (match Dict.get (known_faces e) user with
      | Some _ => RegAddedScan user
      | None => RegRegistered user
      end)
     (Some enc),
   save_encodings w
     (set_known_faces e
        (Dict.set (known_faces e) user
           (match Dict.get (known_faces e) user with
            | Some encs => encs ++ [enc]
            | None => [enc]
            end)))).
Proof.
  intros Hloc Henc.
  unfold register_face, detect_faces, generate_encoding.
  rewrite Hloc, Henc. cbn zeta iota beta.
  destruct (Dict.get (known_faces e) user); reflexivity.
Qed.

Lemma count_after_set (e : engine) (g : gallery) user encs w :
  get_user_encoding_count
    (save_encodings w (set_known_faces e (Dict.set g user encs))) user
  = List.length encs.
Proof.
  unfold get_user_encoding_count.
  destruct w; simpl; now rewrite DictFacts.get_set_same.
Qed.

(** C6, as the code has it. When [save_encodings] fails during an
    enrollment that found one face and encoded it, the exception is caught
    inside [save_encodings] and shown with [st.error]; [register_face]
    still returns success with the encoding, and the in-memory gallery keeps
    the new encoding (one more for that user); the file holds whatever the
    failed write left. *)
Theorem register_face_failed_save_keeps_encoding
        img user loc enc more residue e :
  face_locations img = Returns [loc] ->
  face_encodings img loc = Returns (enc :: more) ->
  let out := register_face face_locations face_encodings img user
                           (WriteRaises residue) e in
  reg_success (fst out) = true /\
  reg_encoding (fst out) = Some enc /\
  known_faces (snd out) =
    Dict.set (known_faces e) user
      (match Dict.get (known_faces e) user with
       | Some encs => encs ++ [enc]
       | None => [enc]
       end) /\
  get_user_encoding_count (snd out) user
    = S (get_user_encoding_count e user) /\
  encodings_file (snd out) = residue /\
  ui (snd out) = ui e ++ [ErrSaveEncodings].
Proof.
  intros Hloc Henc out. unfold out.
  rewrite (register_face_stores img user loc enc more _ e Hloc Henc).
  cbn [fst snd]. repeat split.
  rewrite count_after_set. unfold get_user_encoding_count.
  destruct (Dict.get (known_faces e) user); simpl.
  - rewrite length_app. simpl. lia.
  - reflexivity.
Qed.

(** C7. Starting from a gallery without [u]: the first enrollment creates
    [u] with one embedding, the second appends (two embeddings, also when
    both are equal), and deleting [u] then removes the identity with all
    its embeddings, which gives back the starting gallery. *)
Theorem enroll_twice_then_delete
        img1 img2 u loc1 loc2 enc1 enc2 more1 more2 w1 w2 w3 e :
  Dict.mem (known_faces e) u = false ->
  face_locations img1 = Returns [loc1] ->
  face_encodings img1 loc1 = Returns (enc1 :: more1) ->
  face_locations img2 = Returns [loc2] ->
  face_encodings img2 loc2 = Returns (enc2 :: more2) ->
  let s1 := register_face face_locations face_encodings img1 u w1 e in
  let s2 := register_face face_locations face_encodings img2 u w2 (snd s1) in
  let s3 := delete_user u w3 (snd s2) in
  (reg_success (fst s1) = true /\
   get_user_encoding_count (snd s1) u = 1%nat /\
   known_faces (snd s1) = known_faces e ++ [(u, [enc1])]) /\
  (reg_success (fst s2) = true /\
   get_user_encoding_count (snd s2) u = 2%nat /\
   known_faces (snd s2) = known_faces e ++ [(u, [enc1; enc2])]) /\
  (del_success (fst s3) = true /\
   get_user_encoding_count (snd s3) u = 0%nat /\
   ~ In u (get_registered_users (snd s3)) /\
   known_faces (snd s3) = known_faces e).
Proof.
  intros Hfresh Hl1 He1 Hl2 He2 s1 s2 s3.
  assert (Hget : Dict.get (known_faces e) u = None).
  { unfold Dict.mem in Hfresh. destruct (Dict.get (known_faces e) u);
      [discriminate | reflexivity]. }
  assert (Hs1 : known_faces (snd s1) = known_faces e ++ [(u, [enc1])]).
  { unfold s1. rewrite (register_face_stores img1 u loc1 enc1 more1 w1 e Hl1 He1).
    rewrite Hget. destruct w1; simpl; now apply DictFacts.set_fresh. }
  assert (Hget1 : Dict.get (known_faces (snd s1)) u = Some [enc1]).
  { rewrite Hs1, <- (DictFacts.set_fresh _ _ _ Hfresh).
    apply DictFacts.get_set_same. }
  assert (Hs2 : known_faces (snd s2) = known_faces e ++ [(u, [enc1; enc2])]).
  { unfold s2.
    rewrite (register_face_stores img2 u loc2 enc2 more2 w2 _ Hl2 He2).
    rewrite Hget1. destruct w2; simpl; rewrite Hs1;
      apply DictFacts.set_app_same; exact Hfresh. }
  assert (Hget2 : Dict.get (known_faces (snd s2)) u = Some [enc1; enc2]).
  { rewrite Hs2, <- (DictFacts.set_fresh _ _ _ Hfresh).
    apply DictFacts.get_set_same. }
  assert (Hs3 : known_faces (snd s3) = known_faces e).
  { unfold s3, delete_user, Dict.mem. rewrite Hget2.
    destruct w3; simpl; rewrite Hs2; now apply DictFacts.del_app_fresh. }
  split; [|split].
  - split; [|split; [|exact Hs1]].
    + unfold s1. now rewrite (register_face_stores img1 u loc1 enc1 more1 w1 e Hl1 He1).
    + unfold get_user_encoding_count. now rewrite Hget1.
  - split; [|split; [|exact Hs2]].
    + unfold s2. now rewrite (register_face_stores img2 u loc2 enc2 more2 w2 _ Hl2 He2).
    + unfold get_user_encoding_count. now rewrite Hget2.
  - split; [|split; [|split; [|exact Hs3]]].
    + unfold s3, delete_user, Dict.mem. now rewrite Hget2.
    + unfold get_user_encoding_count. rewrite Hs3, Hget. reflexivity.
    + unfold get_registered_users. rewrite Hs3.
      intros Hin. apply DictFacts.mem_keys in Hin. congruence.
Qed.

End Matcher.

(** The confidence of the worked example in binary64: the doubles nearest
    to 0.3 and 0.6 have the same mantissa, so the quotient is exactly 0.5. *)
Remark confidence_in_binary64 :
  PrimFloat.sub 1%float
    (PrimFloat.div 0x1.3333333333333p-2%float 0x1.3333333333333p-1%float)
  = 0.5%float.
Proof. reflexivity. Qed.

Lemma recognize_face_empty_gallery_witness :
  recognize_face one_face embed norm_axis [3 # 10] empty_engine
  = (mkRecognize false None 0 MsgNoRegisteredUsers [], empty_engine).
Proof.
  apply (recognize_face_empty_gallery encoding unit one_face embed norm_axis
           [3 # 10] tt empty_engine eq_refl eq_refl).
Defined.

(** C6, as stated, fails: with a failing save the enrollment of "alice" on
    an empty gallery reports success and leaves her in the gallery. *)
Lemma register_face_failed_save_counterexample :
  let out := register_face one_face embed [1] "alice"
                           (WriteRaises Damaged) empty_engine in
  reg_success (fst out) = true /\
  known_faces (snd out) = [("alice"%string, [[1]])] /\
  known_faces (snd out) <> known_faces empty_engine.
Proof.
  simpl. repeat split. discriminate.
Qed.

Lemma register_face_failed_save_keeps_encoding_witness :
  let out := register_face one_face embed [1] "alice"
                           (WriteRaises Damaged) empty_engine in
  reg_success (fst out) = true /\
  get_user_encoding_count (snd out) "alice" = 1%nat /\
  encodings_file (snd out) = Damaged /\
  ui (snd out) = [ErrSaveEncodings].
Proof.
  destruct (register_face_failed_save_keeps_encoding
              encoding unit one_face embed [1] "alice"%string tt [1] []
              Damaged empty_engine eq_refl eq_refl)
    as [H1 [_ [_ [H4 [H5 H6]]]]].
  cbv zeta. repeat split; assumption.
Defined.

Lemma enroll_twice_then_delete_witness :
  let s1 := register_face one_face embed [1] "bob" WriteLands alice_engine in
  let s2 := register_face one_face embed [1] "bob" WriteLands (snd s1) in
  let s3 := delete_user "bob" WriteLands (snd s2) in
  get_user_encoding_count (snd s1) "bob" = 1%nat /\
  get_user_encoding_count (snd s2) "bob" = 2%nat /\
  get_user_encoding_count (snd s3) "bob" = 0%nat /\
  ~ In "bob"%string (get_registered_users (snd s3)) /\
  known_faces (snd s3) = known_faces alice_engine.
Proof.
  destruct (enroll_twice_then_delete
              encoding unit one_face embed [1] [1] "bob"%string tt tt
              [1] [1] [] [] WriteLands WriteLands WriteLands alice_engine
              eq_refl eq_refl eq_refl eq_refl eq_refl)
    as [[_ [H1 _]] [[_ [H2 _]] [_ [H3 [H4 H5]]]]].
  cbv zeta. repeat split; assumption.
Defined.

End FaceUtilsProofs.

(** ** The liveness session *)

Module SpoofProofs.
Import Spoof LivenessSpec.

Section Session.

Variable image : Type.
Variable cvtColor : image -> outcome gray.
Variable as_uint8 : image -> image.
Variable face_landmarks : image -> outcome (list landmarks).
Variable norm : point -> Q.

Abbreviation detect_blink := (detect_blink_presence as_uint8 face_landmarks norm).
Abbreviation detect_variation := (detect_frame_variation cvtColor).
Abbreviation check := (check_liveness cvtColor as_uint8 face_landmarks norm).
Abbreviation step' := (step cvtColor as_uint8 face_landmarks norm).
Abbreviation run' := (run cvtColor as_uint8 face_landmarks norm).

Lemma variation_keeps_blink_state f d :
  let d' := snd (detect_variation f d) in
  ear_history d' = ear_history d /\ ear_history_len d' = ear_history_len d /\
  blink_threshold d' = blink_threshold d /\ blink_detected d' = blink_detected d /\
  frame_variation_threshold d' = frame_variation_threshold d /\
  max_history d' = max_history d.
Proof.
  unfold detect_frame_variation.
  destruct (cvtColor f) as [g|]; cbn zeta; [|now repeat split].
  destruct (_ <? 2)%nat; [now repeat split|].
  destruct (absdiff _ _); now repeat split.
Qed.

Lemma blink_keeps_parameters f d :
  let d' := snd (detect_blink f d) in
  ear_history_len d' = ear_history_len d /\
  blink_threshold d' = blink_threshold d /\
  frame_variation_threshold d' = frame_variation_threshold d /\
  frame_history d' = frame_history d /\
  max_history d' = max_history d.
Proof.
  unfold detect_blink_presence.
  destruct (face_landmarks _) as [[|face more]|]; cbn zeta; try now repeat split.
  destruct (compute_eye_aspect_ratio norm (left_eye face)); [|now repeat split].
  destruct (compute_eye_aspect_ratio norm (right_eye face)); now repeat split.
Qed.

Lemma blink_establishes_invariant f d :
  flag_follows_pattern d -> flag_follows_pattern (snd (detect_blink f d)).
Proof.
  unfold detect_blink_presence.
  destruct (face_landmarks _) as [[|face more]|]; cbn zeta; auto.
  destruct (compute_eye_aspect_ratio norm (left_eye face)) as [l|]; auto.
  destruct (compute_eye_aspect_ratio norm (right_eye face)) as [r|]; auto.
  intros _. unfold flag_follows_pattern, blink_pattern. cbn [snd].
  cbn [ear_history ear_history_len blink_threshold blink_detected set_ear].
  set (h := push_bounded (ear_history d) ((l + r) / 2) (ear_history_len d)).
  intros [Hlen [[s [Hin Hs]] Hlast]].
  apply Nat.eqb_eq in Hlen. rewrite Hlen.
  assert (Hex : existsb (fun ear => Qltb ear (blink_threshold d)) h = true).
  { apply existsb_exists. exists s. split; [exact Hin | now apply Qltb_lt]. }
  apply Qltb_lt in Hlast. now rewrite Hex, Hlast.
Qed.

Lemma blink_keeps_flag f d :
  blink_detected d = true -> blink_detected (snd (detect_blink f d)) = true.
Proof.
  unfold detect_blink_presence. intros Hflag.
  destruct (face_landmarks _) as [[|face more]|]; cbn zeta; auto.
  destruct (compute_eye_aspect_ratio norm (left_eye face)) as [l|]; auto.
  destruct (compute_eye_aspect_ratio norm (right_eye face)) as [r|]; auto.
  cbn [snd blink_detected set_ear]. rewrite Hflag.
  destruct (_ =? _)%nat; [|reflexivity].
  destruct (_ && _); reflexivity.
Qed.

Lemma step_keeps_invariant c d :
  flag_follows_pattern d -> flag_follows_pattern (step' c d).
Proof.
  destruct c as [f|f|f|]; cbn [step].
  - unfold check_liveness.
    pose proof (variation_keeps_blink_state f d) as Hv. cbv zeta in Hv.
    destruct (detect_variation f d) as [v d1]. cbn [snd] in Hv.
    destruct Hv as [H1 [H2 [H3 [H4 _]]]].
    intros Hinv.
    assert (Hinv1 : flag_follows_pattern d1).
    { unfold flag_follows_pattern, blink_pattern in *.
      rewrite H1, H2, H3, H4. exact Hinv. }
    pose proof (blink_establishes_invariant f d1 Hinv1) as Hb.
    destruct (detect_blink f d1) as [b d2]. exact Hb.
  - apply blink_establishes_invariant.
  - pose proof (variation_keeps_blink_state f d) as Hv. cbv zeta in Hv.
    destruct Hv as [H1 [H2 [H3 [H4 _]]]].
    unfold flag_follows_pattern, blink_pattern. now rewrite H1, H2, H3, H4.
  - intros _. unfold flag_follows_pattern, blink_pattern, reset. simpl.
    intros [_ [[s [[] _]] _]].
Qed.

Lemma step_keeps_flag c d :
  is_reset c = false ->
  blink_detected d = true -> blink_detected (step' c d) = true.
Proof.
  destruct c as [f|f|f|]; cbn [step is_reset]; intros Hc Hflag;
    [| |  |discriminate].
  - unfold check_liveness.
    pose proof (variation_keeps_blink_state f d) as Hv. cbv zeta in Hv.
    destruct (detect_variation f d) as [v d1]. cbn [snd] in Hv.
    destruct Hv as [_ [_ [_ [H4 _]]]]. rewrite <- H4 in Hflag.
    pose proof (blink_keeps_flag f d1 Hflag) as Hb.
    destruct (detect_blink f d1) as [b d2]. exact Hb.
  - now apply blink_keeps_flag.
  - pose proof (variation_keeps_blink_state f d) as Hv. cbv zeta in Hv.
    destruct Hv as [_ [_ [_ [H4 _]]]]. now rewrite H4.
Qed.

(** C3. In every session (any calls issued on a newly built detector, for
    any thresholds and window length, 10 by default), a state whose EAR
    window is full, holds a sample strictly below the blink threshold and
    has its most recent sample strictly above it has the blink flag set;
    once set, the flag stays set under every further call that is not
    [reset()], whatever the frames show; [reset()] clears it. *)
Theorem blink_flag_is_sticky :
  (forall blink_thr variation_thr history_len calls,
      let d := run' calls (init blink_thr variation_thr history_len) in
      blink_pattern d -> blink_detected d = true) /\
  (forall d calls,
      existsb (@is_reset image) calls = false ->
      blink_detected d = true ->
      blink_detected (run' calls d) = true) /\
  (forall d, blink_detected (reset d) = false).
Proof.
  split; [|split].
  - intros blink_thr variation_thr history_len calls d.
    assert (Hinv : flag_follows_pattern d); [|exact Hinv].
    unfold d, run.
    assert (H0 : flag_follows_pattern (init blink_thr variation_thr history_len)).
    { unfold flag_follows_pattern, blink_pattern, init. simpl.
      intros [_ [[s [[] _]] _]]. }
    revert H0. generalize (init blink_thr variation_thr history_len).
    induction calls as [|c calls IH]; intros d0 H0; simpl; auto.
    apply IH. now apply step_keeps_invariant.
  - intros d calls. revert d.
    induction calls as [|c calls IH]; intros d Hno Hflag; simpl in *; auto.
    apply orb_false_iff in Hno. destruct Hno as [Hc Hrest].
    apply IH; [exact Hrest|]. now apply step_keeps_flag.
  - reflexivity.
Qed.

(** *** Identical frames *)

Lemma absdiff_same (g : gray) :
  exists diff, absdiff g g = Returns diff /\ sum diff = 0%Z.
Proof.
  induction g as [|x g [diff [Hd Hs]]]; simpl.
  - now exists [].
  - rewrite Hd. exists (Z.abs (x - x) :: diff). split; [reflexivity|].
    unfold sum in *. simpl. rewrite Hs. lia.
Qed.

Lemma all_same_nth (g : gray) (h : list gray) (k : nat) :
  Forall (eq g) h -> (k < List.length h)%nat -> nth k h [] = g.
Proof.
  intros Hall Hk. rewrite Forall_forall in Hall.
  symmetry. apply Hall. now apply nth_In.
Qed.

Lemma all_same_last (g : gray) (h : list gray) :
  Forall (eq g) h -> h <> [] -> last h [] = g.
Proof.
  intros Hall Hne. rewrite Forall_forall in Hall.
  destruct (exists_last Hne) as [h' [x Heq]]. subst h.
  rewrite last_last. symmetry. apply Hall. apply in_or_app. right. now left.
Qed.

Lemma push_static (g : gray) (h : list gray) :
  h <> [] -> Forall (eq g) h ->
  let h' := push_bounded h g 5 in
  (2 <= List.length h')%nat /\ Forall (eq g) h'.
Proof.
  intros Hne Hall. unfold push_bounded.
  assert (Hall1 : Forall (eq g) (h ++ [g])).
  { apply Forall_app. split; [exact Hall | now constructor]. }
  assert (Hlen : List.length (h ++ [g]) = S (List.length h))
    by (rewrite length_app; simpl; lia).
  assert (Hpos : (1 <= List.length h)%nat)
    by (destruct h; [congruence | simpl; lia]).
  cbv zeta.
  destruct (5 <? List.length (h ++ [g]))%nat eqn:E.
  - apply Nat.ltb_lt in E.
    destruct (h ++ [g]) as [|x t]; simpl in *; [lia|].
    split; [lia | now inversion Hall1].
  - split; [lia | exact Hall1].
Qed.

Lemma variation_static f d g :
  static_history g d -> cvtColor f = Returns g ->
  var_is_live (fst (detect_variation f d)) = false /\
  static_history g (snd (detect_variation f d)).
Proof.
  intros [Hne [Hall [Hmax Hthr]]] Hcvt.
  unfold detect_frame_variation. rewrite Hcvt, Hmax. cbn zeta.
  destruct (push_static g (frame_history d) Hne Hall) as [Hlen Hall'].
  set (h := push_bounded (frame_history d) g 5) in *. clearbody h.
  assert (Hlt : (List.length h <? 2)%nat = false) by (apply Nat.ltb_ge; lia).
  rewrite Hlt.
  rewrite (all_same_nth g h _ Hall') by lia.
  rewrite (all_same_last g h Hall') by (intros ->; simpl in Hlen; lia).
  destruct (absdiff_same g) as [diff [Hd Hs]]. rewrite Hd, Hs.
  assert (Hcmp : (frame_variation_threshold d <? 0)%Z = false)
    by (apply Z.ltb_ge; exact Hthr).
  rewrite Hcmp. unfold static_history. cbn. repeat split; auto.
  intros Hnil. rewrite Hnil in Hlen. simpl in Hlen. lia.
Qed.

Lemma check_static f d g :
  static_history g d -> cvtColor f = Returns g ->
  is_live (fst (check f d)) = false /\ static_history g (snd (check f d)).
Proof.
  intros Hst Hcvt. unfold check_liveness.
  destruct (variation_static f d g Hst Hcvt) as [Hv Hst1].
  destruct (detect_variation f d) as [v d1]. cbn [fst snd] in *.
  pose proof (blink_keeps_parameters f d1) as Hb. cbv zeta in Hb.
  destruct (detect_blink f d1) as [b d2]. cbn [fst snd] in *.
  destruct Hb as [_ [_ [H3 [H4 H5]]]].
  split; [now rewrite Hv|].
  unfold static_history in *. now rewrite H3, H4, H5.
Qed.

Lemma feed_static frames d g :
  static_history g d ->
  (forall f, In f frames -> cvtColor f = Returns g) ->
  Forall (fun r => is_live r = false) (fst (feed cvtColor as_uint8 face_landmarks norm frames d)).
Proof.
  revert d. induction frames as [|f frames IH]; intros d Hst Hall; simpl.
  - constructor.
  - destruct (check_static f d g Hst (Hall f (or_introl eq_refl))) as [Hl Hst1].
    destruct (check f d) as [r d1]. cbn [fst snd] in *.
    specialize (IH d1 Hst1 (fun f' Hf' => Hall f' (or_intror Hf'))).
    destruct (feed _ _ _ _ frames d1) as [rs d2]. cbn [fst] in *.
    now constructor.
Qed.

Lemma feed_unreadable frames d :
  (forall f, In f frames -> cvtColor f = Raises) ->
  Forall (fun r => is_live r = false) (fst (feed cvtColor as_uint8 face_landmarks norm frames d)).
Proof.
  revert d. induction frames as [|f frames IH]; intros d Hall; simpl.
  - constructor.
  - assert (Hl : is_live (fst (check f d)) = false).
    { unfold check_liveness, detect_frame_variation.
      rewrite (Hall f (or_introl eq_refl)).
      destruct (detect_blink f d). reflexivity. }
    destruct (check f d) as [r d1]. cbn [fst] in *.
    specialize (IH d1 (fun f' Hf' => Hall f' (or_intror Hf'))).
    destruct (feed _ _ _ _ frames d1) as [rs d2]. cbn [fst] in *.
    now constructor.
Qed.

(** On a state with an empty EAR window and no blink seen, one call cannot
    report a blink: a window of one sample has no sample both below and
    above the threshold. *)
Lemma first_sample_no_blink f d :
  ear_history d = [] -> blink_detected d = false ->
  has_blink (fst (detect_blink f d)) = false.
Proof.
  intros Hh Hb. unfold detect_blink_presence.
  destruct (face_landmarks _) as [[|face more]|]; cbn zeta; auto.
  destruct (compute_eye_aspect_ratio norm (left_eye face)) as [l|]; auto.
  destruct (compute_eye_aspect_ratio norm (right_eye face)) as [r|]; auto.
  cbn [fst has_blink]. rewrite Hh, Hb. unfold push_bounded. simpl.
  destruct (ear_history_len d) as [|[|n]]; simpl; auto.
  destruct (Qltb ((l + r) / 2) (blink_threshold d)) eqn:E1; simpl; auto.
  destruct (Qltb (blink_threshold d) ((l + r) / 2)) eqn:E2; simpl; auto.
  apply Qltb_lt in E1, E2. exfalso. lra.
Qed.

(** C4. A fresh session fed frames that all convert to the same grayscale
    image (or all fail to convert), with a variation threshold that the
    difference sum 0 does not exceed, never gets [is_live = true] from
    [check_liveness], whatever landmarks and EAR values the frames yield. *)
Theorem identical_frames_never_live frames d o :
  fresh d ->
  (0 <= frame_variation_threshold d)%Z ->
  (forall f, In f frames -> cvtColor f = o) ->
  Forall (fun r => is_live r = false)
         (fst (feed cvtColor as_uint8 face_landmarks norm frames d)).
Proof.
  intros [Hfh [Heh [Hbd Hmax]]] Hthr Hall.
  destruct o as [g|]; [|now apply feed_unreadable].
  destruct frames as [|f frames]; simpl; [constructor|].
  assert (Hcvt : cvtColor f = Returns g) by (apply Hall; now left).
  assert (Hfirst : is_live (fst (check f d)) = false /\
                   static_history g (snd (check f d))).
  { unfold check_liveness.
    pose proof (variation_keeps_blink_state f d) as Hv. cbv zeta in Hv.
    assert (Hh : frame_history (snd (detect_variation f d)) = [g]).
    { unfold detect_frame_variation. rewrite Hcvt, Hfh, Hmax. reflexivity. }
    destruct (detect_variation f d) as [v d1]. cbn [fst snd] in *.
    destruct Hv as [H1 [_ [_ [H4 [H5 H6]]]]].
    pose proof (first_sample_no_blink f d1) as Hnb.
    rewrite H1, H4 in Hnb. specialize (Hnb Heh Hbd).
    pose proof (blink_keeps_parameters f d1) as Hb. cbv zeta in Hb.
    destruct (detect_blink f d1) as [b d2]. cbn [fst snd] in *.
    destruct Hb as [_ [_ [B3 [B4 B5]]]].
    split; [rewrite Hnb; apply andb_false_r|].
    unfold static_history. rewrite B3, B4, B5, Hh, H5, H6.
    repeat split; auto. discriminate. }
  destruct Hfirst as [Hl Hst].
  destruct (check f d) as [r d1]. cbn [fst snd] in *.
  pose proof (feed_static frames d1 g Hst
                (fun f' Hf' => Hall f' (or_intror Hf'))) as Hrest.
  destruct (feed _ _ _ _ frames d1) as [rs d2]. cbn [fst] in *.
  now constructor.
Qed.

End Session.

Lemma blink_flag_is_sticky_witness :
  let d := run to_gray same_frame landmarks_of norm_axis
               (map (@CheckLiveness frame) still_blink) default in
  blink_detected d = true /\
  blink_detected (run to_gray same_frame landmarks_of norm_axis
                      [CheckLiveness eyes_open; DetectFrameVariation eyes_open]
                      d) = true.
Proof.
  destruct (blink_flag_is_sticky frame to_gray same_frame landmarks_of norm_axis)
    as [Hset [Hkeep _]].
  assert (Hflag :
            blink_detected
              (run to_gray same_frame landmarks_of norm_axis
                   (map (@CheckLiveness frame) still_blink) default) = true).
  { apply (Hset (25 # 100) 500%Z 10%nat (map (@CheckLiveness frame) still_blink)).
    vm_compute.
    split; [reflexivity|]. split; [|reflexivity].
    eexists. split; [left; reflexivity | reflexivity]. }
  split; [exact Hflag|].
  apply Hkeep; [vm_compute; reflexivity | exact Hflag].
Defined.

Lemma identical_frames_never_live_witness :
  Forall (fun r => is_live r = false)
         (fst (feed to_gray same_frame landmarks_of norm_axis
                    (still_blink ++ [eyes_open; eyes_open]) default)).
Proof.
  apply (identical_frames_never_live frame to_gray same_frame landmarks_of
           norm_axis (still_blink ++ [eyes_open; eyes_open]) default
           (Returns [0; 0; 0; 0]%Z)).
  - vm_compute. repeat split.
  - vm_compute. discriminate.
  - intros f Hin. vm_compute in Hin.
    repeat (destruct Hin as [<-|Hin]; [reflexivity|]). destruct Hin.
Defined.

End SpoofProofs.

(** ** Exact steps of binary64 arithmetic *)

Module Binary64Facts.
Import Binary64.

Lemma digits_size (p : positive) : digits2_pos p = Pos.size p.
Proof. induction p; simpl; congruence. Qed.

Lemma digits_iter (p d : positive) :
  digits2_pos (Pos.iter xO p d) = (digits2_pos p + d)%positive.
Proof.
  induction d using Pos.peano_ind.
  - simpl. lia.
  - rewrite Pos.iter_succ. simpl. rewrite IHd. lia.
Qed.

Lemma size_le_of_lt (p j : positive) :
  (Zpos p < 2 ^ Zpos j)%Z -> (Pos.size p <= j)%positive.
Proof.
  intros Hlt. destruct (Pos.leb_spec (Pos.size p) j) as [H|H]; [exact H|exfalso].
  pose proof (Pos.size_le p) as Hle.
  assert (H2 : (2 ^ Zpos (Pos.size p) <= 2 * Zpos p)%Z).
  { change (2 * Zpos p)%Z with (Zpos p~0). rewrite <- Pos2Z.inj_pow. lia. }
  assert (H3 : (2 ^ (Zpos j + 1) <= 2 ^ Zpos (Pos.size p))%Z)
    by (apply Z.pow_le_mono_r; lia).
  rewrite Z.pow_add_r in H3 by lia. lia.
Qed.

Lemma size_gtZ (p : positive) : (Zpos p < 2 ^ Zpos (Pos.size p))%Z.
Proof. pose proof (Pos.size_gt p). rewrite <- Pos2Z.inj_pow. lia. Qed.

Lemma mul_iter (p q d : positive) :
  (Pos.iter xO p d * q = Pos.iter xO (p * q) d)%positive.
Proof.
  induction d using Pos.peano_ind.
  - reflexivity.
  - rewrite !Pos.iter_succ. simpl. now rewrite IHd.
Qed.

Lemma mul_iter_r (p q d : positive) :
  (p * Pos.iter xO q d = Pos.iter xO (p * q) d)%positive.
Proof. rewrite Pos.mul_comm, mul_iter. now rewrite Pos.mul_comm. Qed.

Lemma iter_xO_Z (x d : positive) :
  Zpos (Pos.iter xO x d) = (Zpos x * 2 ^ Zpos d)%Z.
Proof.
  induction d using Pos.peano_ind.
  - simpl. lia.
  - rewrite Pos.iter_succ, Pos2Z.inj_succ, Z.pow_succ_r by lia.
    rewrite Pos2Z.inj_xO, IHd. lia.
Qed.

Lemma iter_pos_swap {A} (f : A -> A) (n : positive) (x : A) :
  SpecFloat.iter_pos f n (f x) = f (SpecFloat.iter_pos f n x).
Proof.
  revert x. induction n as [n IH|n IH|]; intros x; simpl; auto.
  - now rewrite !IH.
  - now rewrite !IH.
Qed.

Lemma iter_pos_succ {A} (f : A -> A) (n : positive) (x : A) :
  SpecFloat.iter_pos f (Pos.succ n) x = f (SpecFloat.iter_pos f n x).
Proof.
  revert x. induction n as [n IH|n IH|]; intros x; simpl; auto.
  - rewrite !IH. now rewrite !iter_pos_swap.
  - now rewrite !iter_pos_swap.
Qed.

(** Shifting out [n] zero bits loses nothing. *)
Lemma shr_exact (x n : positive) :
  SpecFloat.iter_pos shr_1 n
    (Build_shr_record (Zpos (Pos.iter xO x n)) false false)
  = Build_shr_record (Zpos x) false false.
Proof.
  induction n using Pos.peano_ind.
  - reflexivity.
  - rewrite Pos.iter_succ, iter_pos_succ, <- iter_pos_swap. simpl. exact IHn.
Qed.

(** Normalising an integer of at most 53 bits is exact. *)
Lemma binary_round_small (s : bool) (p : positive) (e : Z) :
  (Zpos (digits2_pos p) <= 53)%Z ->
  (-1074 + 53 <= e + Zpos (digits2_pos p))%Z -> (e <= 900)%Z ->
  binary_round prec emax s p e =
  S754_finite s
    (match (53 - Zpos (digits2_pos p))%Z with
     | Zpos d => Pos.iter xO p d
     | _ => p
     end)
    (e - (53 - Zpos (digits2_pos p))).
Proof.
  intros Hk He1 He2. unfold binary_round.
  set (k := Zpos (digits2_pos p)) in *.
  assert (Hf : fexp prec emax (k + e) = (k + e - 53)%Z).
  { unfold fexp, emin, prec, emax. lia. }
  rewrite Hf. unfold shl_align.
  destruct (53 - k)%Z as [|d|d] eqn:Ed; try lia.
  - replace (k + e - 53 - e)%Z with 0%Z by lia.
    unfold binary_round_aux, shr_fexp. cbn [Zdigits2]. fold k.
    replace (e - 0)%Z with e by lia.
    replace (fexp prec emax (k + e) - e)%Z with 0%Z by (rewrite Hf; lia).
    cbn [shr shr_record_of_loc shr_m loc_of_shr_record round_nearest_even Zdigits2].
    fold k.
    replace (fexp prec emax (k + e) - e)%Z with 0%Z by (rewrite Hf; lia).
    cbn [shr shr_m].
    assert (E : (e <=? emax - prec)%Z = true)
      by (apply Z.leb_le; unfold emax, prec; lia).
    now rewrite E.
  - replace (k + e - 53 - e)%Z with (Zneg d) by lia.
    unfold binary_round_aux, shr_fexp. cbn [Zdigits2]. rewrite digits_iter.
    assert (Hd : Zpos (digits2_pos p + d) = 53%Z) by (fold k; lia).
    rewrite Hd.
    assert (Hf2 : (fexp prec emax (53 + (k + e - 53)) - (k + e - 53) = 0)%Z).
    { unfold fexp, emin, prec, emax. lia. }
    rewrite Hf2.
    cbn [shr shr_record_of_loc shr_m loc_of_shr_record round_nearest_even Zdigits2].
    rewrite digits_iter, Hd, Hf2. cbn [shr shr_m].
    assert (E : (k + e - 53 <=? emax - prec)%Z = true)
      by (apply Z.leb_le; unfold emax, prec; lia).
    rewrite E. f_equal. lia.
Qed.

Lemma m24_iter : m24 = Pos.iter xO 3%positive 51.
Proof. reflexivity. Qed.

(** Multiplying a float whose mantissa ends in at least three zero bits by
    24 is exact. *)
Lemma mul24_exact (s : bool) (p d : positive) (e : Z) :
  (Zpos (digits2_pos p) + Zpos d = 53)%Z -> (3 <= Zpos d)%Z ->
  (-900 <= e <= 900)%Z ->
  exists d2 e2,
    SFmul prec emax (S754_finite s (Pos.iter xO p d) e)
          (S754_finite false m24 (-48))
    = S754_finite s (Pos.iter xO (p * 3)%positive d2) e2 /\
    (Zpos d2 + e2 = Zpos d + e + 3)%Z.
Proof.
  intros Hk Hd He. unfold SFmul. rewrite xorb_false_r.
  rewrite m24_iter, mul_iter_r, mul_iter, <- Pos.iter_add.
  set (q := (p * 3)%positive).
  set (kq := Zpos (digits2_pos q)).
  assert (Hkq : (1 <= kq <= Zpos (digits2_pos p) + 2)%Z).
  { unfold kq. split; [lia|]. rewrite (digits_size q), (digits_size p).
    assert (Hs : (Pos.size q <= Pos.size p + 2)%positive); [|lia].
    apply size_le_of_lt. pose proof (size_gtZ p).
    rewrite Pos2Z.inj_add, Z.pow_add_r by lia.
    change (2 ^ Z.pos 2)%Z with 4%Z. unfold q. lia. }
  set (n := (kq + 51 + Zpos d - 53)%Z).
  assert (Hn : (1 <= n)%Z) by (unfold n; lia).
  assert (Hrest : (1 <= 51 + Zpos d - n)%Z) by (unfold n; lia).
  destruct n as [|np|np] eqn:En; try lia.
  destruct (51 + Zpos d - Zpos np)%Z as [|rp|rp] eqn:Er; try lia.
  assert (Hsplit : (51 + d = np + rp)%positive) by lia.
  rewrite Hsplit, Pos.iter_add.
  exists rp, (e - 48 + Zpos np)%Z. split; [|lia].
  unfold binary_round_aux, shr_fexp. cbn [Zdigits2].
  rewrite !digits_iter. fold q.
  assert (Hf : (fexp prec emax (Zpos (digits2_pos q + rp + np) + (e + -48))
                - (e + -48) = Zpos np)%Z).
  { unfold fexp, emin, prec, emax. fold kq in Hkq. unfold kq in *. lia. }
  rewrite Hf. cbn [shr shr_record_of_loc]. rewrite shr_exact.
  cbn [shr_m loc_of_shr_record round_nearest_even Zdigits2].
  rewrite digits_iter.
  assert (Hf2 : (fexp prec emax (Zpos (digits2_pos q + rp) + (e + -48 + Zpos np))
                 - (e + -48 + Zpos np) = 0)%Z).
  { unfold fexp, emin, prec, emax. unfold kq in *. lia. }
  rewrite Hf2. cbn [shr shr_m].
  assert (E : (e + -48 + Zpos np <=? emax - prec)%Z = true)
    by (apply Z.leb_le; unfold emax, prec, kq in *; lia).
  rewrite E. f_equal; lia.
Qed.

Lemma value_shifted (s : bool) (x d : positive) (e : Z) :
  (Zpos d + e = -28)%Z ->
  exists v, SFvalue (S754_finite s (Pos.iter xO x d) e) = Some v /\
            v == (if s then Zneg x else Zpos x) # 268435456.
Proof.
  intros He. eexists. split; [reflexivity|].
  rewrite iter_xO_Z, inject_Z_mult.
  rewrite (Zpower_Qpower 2 (Zpos d)) by lia.
  assert (Hp : inject_Z 2 ^ Zpos d * 2 ^ e == 2 ^ (-28)).
  { rewrite <- Qpower_plus by discriminate. now rewrite He. }
  transitivity ((if s then -1 else 1) * inject_Z (Zpos x)
                * (inject_Z 2 ^ Zpos d * 2 ^ e)); [ring|].
  rewrite Hp. destruct s; unfold Qeq; simpl; lia.
Qed.

(** Subtracting two day numbers of the same day and multiplying by 24:
    both steps are exact. *)
Lemma sub_then_mul24 (lo : Z) (a b : positive) :
  (lo <= Zpos a <= lo + 2147483648)%Z ->
  (lo <= Zpos b <= lo + 2147483648)%Z ->
  exists v,
    SFvalue (SFmul prec emax
               (SFsub prec emax (S754_finite false a (-31))
                                (S754_finite false b (-31)))
               (S754_finite false m24 (-48))) = Some v /\
    v == (3 * (Zpos a - Zpos b)) # 268435456.
Proof.
  intros Ha Hb.
  assert (Hsub : SFsub prec emax (S754_finite false a (-31))
                       (S754_finite false b (-31))
                 = binary_normalize prec emax (Zpos a - Zpos b) (-31) false)
    by reflexivity.
  rewrite Hsub. clear Hsub.
  assert (Hdelta : (- 2147483648 <= Zpos a - Zpos b <= 2147483648)%Z) by lia.
  assert (Hbits : forall p, (Zpos p <= 2147483648)%Z ->
                            (Zpos (digits2_pos p) <= 32)%Z).
  { intros p Hp. rewrite digits_size.
    assert (Hs : (Pos.size p <= 32)%positive); [|lia].
    apply size_le_of_lt. change (2 ^ Zpos 32)%Z with 4294967296%Z. lia. }
  destruct (Zpos a - Zpos b)%Z as [|p|p] eqn:Ed.
  - exists 0. split; reflexivity.
  - unfold binary_normalize.
    assert (Hk : (Zpos (digits2_pos p) <= 32)%Z) by (apply Hbits; lia).
    rewrite binary_round_small by lia.
    destruct (53 - Zpos (digits2_pos p))%Z as [|d|d] eqn:Edd; try lia.
    destruct (mul24_exact false p d (-31 - Zpos d)) as [d2 [e2 [Hmul Hde]]];
      try lia.
    rewrite Hmul.
    destruct (value_shifted false (p * 3) d2 e2) as [v [Hv Hq]]; [lia|].
    exists v. split; [exact Hv|]. rewrite Hq. unfold Qeq. simpl. lia.
  - unfold binary_normalize.
    assert (Hk : (Zpos (digits2_pos p) <= 32)%Z) by (apply Hbits; lia).
    rewrite binary_round_small by lia.
    destruct (53 - Zpos (digits2_pos p))%Z as [|d|d] eqn:Edd; try lia.
    destruct (mul24_exact true p d (-31 - Zpos d)) as [d2 [e2 [Hmul Hde]]];
      try lia.
    rewrite Hmul.
    destruct (value_shifted true (p * 3) d2 e2) as [v [Hv Hq]]; [lia|].
    exists v. split; [exact Hv|]. rewrite Hq. unfold Qeq. simpl. lia.
Qed.

End Binary64Facts.

(** ** Order and rounding of binary64 *)

Module FloatOrder.




End FloatOrder.

Module FloatRounding.
Import FloatOrder Binary64Facts RoundingSpec.

Local Open Scope Z_scope.















End FloatRounding.

Module FloatFacts.
Import FloatOrder FloatRounding RoundingSpec.
Local Open Scope float_scope.










End FloatFacts.

(** ** The matcher in binary64 *)

Module FaceUtils64Proofs.
Import FaceUtils64 MatcherSpec64 Binary64 FloatFacts.

Local Open Scope float_scope.



Lemma owners_length (g : gallery) :
  List.length (all_known_names g) = List.length (all_known_encodings g).
Proof.
  unfold all_known_names, all_known_encodings, Dict.items.
  induction g as [|[u encs] g IH]; simpl; auto.
  now rewrite !length_app, length_map, IH.
Qed.



Section Matcher.

Variable image : Type.
Variable location : Type.
Variable face_locations : image -> outcome (list location).
Variable face_encodings : image -> location -> outcome (list encoding).
Variable add_reduce : list float -> float.






End Matcher.



End FaceUtils64Proofs.

(** ** The attendance ledger *)

Module DbProofs.
Import Db LedgerSpec Binary64.

Lemma in_range (n : nat) (z : Z) : (0 <= z < Z.of_nat n)%Z -> In z (range n).
Proof.
  intros Hz. unfold range. apply in_map_iff. exists (Z.to_nat z).
  split; [lia|]. apply in_seq. lia.
Qed.

Lemma roundtrips_all :
  forallb (fun h => forallb (fun m => forallb (fun s => roundtrips h m s)
                                              (range 60)) (range 60)) (range 24)
  = true.
Proof. vm_compute. reflexivity. Qed.

Lemma parse_strftime (t : time) :
  valid_time t ->
  parse_HMS (strftime_HMS t) = Some (hour t, minute t, second t).
Proof.
  intros [Hh [Hm Hs]]. destruct t as [h m s]. simpl in *.
  pose proof roundtrips_all as H.
  rewrite forallb_forall in H. specialize (H h (in_range 24 h Hh)).
  rewrite forallb_forall in H. specialize (H m (in_range 60 m Hm)).
  rewrite forallb_forall in H. specialize (H s (in_range 60 s Hs)).
  unfold roundtrips in H.
  destruct (parse_HMS (strftime_HMS (mkTime h m s))) as [[[h' m'] s']|];
    [|discriminate].
  apply andb_prop in H. destruct H as [H H3].
  apply andb_prop in H. destruct H as [H1 H2].
  apply Z.eqb_eq in H1, H2, H3. now subst.
Qed.

Lemma julianday_strftime (t : time) :
  valid_time t -> julianday (strftime_HMS t) = Some (julianday_of t).
Proof.
  intros Hv. unfold julianday. rewrite (parse_strftime t Hv).
  unfold julianday_of, julianday_at, seconds_of, iJD. do 4 f_equal. lia.
Qed.


Lemma matches_refl (n d : string) (i : Z) (t : string) (o : option string) :
  matches n d (mkRow i n d t o) = true.
Proof. unfold matches. simpl. now rewrite !String.eqb_refl. Qed.

(** The invariant holds on the empty table and every call keeps it. *)
Lemma ids_bounded_empty : ids_bounded empty_db.
Proof. constructor. Qed.

Lemma mark_attendance_keeps_ids_bounded n today now env db :
  ids_bounded db -> ids_bounded (snd (mark_attendance n today now env db)).
Proof.
  intros Hids. unfold mark_attendance.
  destruct env; [|exact Hids].
  destruct (select_latest db n (strftime_Ymd today)) as [record|].
  - destruct (punch_out record); [exact Hids|].
    unfold ids_bounded, update_punch_out in *. cbn [snd rows last_id].
    rewrite Forall_forall in *. intros r Hin.
    apply in_map_iff in Hin. destruct Hin as [r0 [<- Hin0]].
    specialize (Hids r0 Hin0).
    destruct (id r0 =? id record)%Z; exact Hids.
  - unfold ids_bounded, insert in *. cbn [snd rows last_id].
    apply Forall_app. split.
    + rewrite Forall_forall in *. intros r Hin. specialize (Hids r Hin). lia.
    + constructor; [cbn; lia | constructor].
Qed.


(** C9. For every user, year and month the summary satisfies
    [total_days_present = days_with_punch_out + incomplete_days] with all
    three counts non-negative; when the query raises, and on an empty
    table, every count is 0. *)
Theorem summary_counts_add_up n y m env db :
  let s := get_user_attendance_summary n y m env db in
  (total_days_present s = days_with_punch_out s + incomplete_days s /\
   0 <= total_days_present s /\ 0 <= days_with_punch_out s /\
   0 <= incomplete_days s)%Z /\
  get_user_attendance_summary n y m SqliteRaises db = empty_summary /\
  get_user_attendance_summary n y m env empty_db = empty_summary.
Proof.
  split; [|split; [reflexivity | destruct env; reflexivity]].
  unfold get_user_attendance_summary.
  destruct (get_monthly_attendance y m env db) as [|r df]; [simpl; lia|].
  set (udf := filter (fun r0 => String.eqb (df_name r0) n) (r :: df)).
  destruct udf as [|r' udf'] eqn:E; [simpl; lia|].
  cbn [total_days_present days_with_punch_out incomplete_days].
  pose proof (filter_length_le (fun r0 => notna (df_punch_out r0)) (r' :: udf')).
  lia.
Qed.

(** Rows without punch-out carry no hours, so summing over the completed
    rows only gives the same total. *)
Lemma series_sum_completed (l : list df_row) :
  Forall (fun r => df_punch_out r = None -> df_hours_worked r = None) l ->
  series_sum (map df_hours_worked l)
  = series_sum (map df_hours_worked (filter completed l)).
Proof.
  intros Hall. unfold series_sum. generalize 0%float.
  induction Hall as [|r l Hr _ IH]; intros acc; simpl; auto.
  unfold completed at 1. destruct (df_punch_out r) eqn:E; simpl.
  - apply IH.
  - rewrite (Hr eq_refl). apply IH.
Qed.

Lemma select_row_incomplete (r : row) :
  df_punch_out (select_row r) = None -> df_hours_worked (select_row r) = None.
Proof.
  unfold select_row, hours_worked. simpl. now intros ->.
Qed.

Lemma monthly_rows_incomplete y m env db :
  Forall (fun r => df_punch_out r = None -> df_hours_worked r = None)
         (get_monthly_attendance y m env db).
Proof.
  unfold get_monthly_attendance. destruct env; [|constructor].
  apply Forall_forall. intros r Hin. apply in_map_iff in Hin.
  destruct Hin as [r0 [<- _]]. apply select_row_incomplete.
Qed.

Lemma summary_total_hours n y m env db :
  total_hours (get_user_attendance_summary n y m env db)
  = or_zero (series_sum (map df_hours_worked (user_df n y m env db))).
Proof.
  unfold get_user_attendance_summary, user_df.
  destruct (get_monthly_attendance y m env db) as [|r df]; [reflexivity|].
  destruct (filter _ (r :: df)); reflexivity.
Qed.

Lemma julianday_rounded_all :
  forallb (fun h => forallb (fun m => forallb (fun s =>
             julianday_rounded (h * 3600 + m * 60 + s))
           (range 60)) (range 60)) (range 24) = true.
Proof. vm_compute. reflexivity. Qed.

(** Every Julian day number the ledger can compute is the nearest multiple
    of 2^-31 to the exact one. *)
Lemma julianday_of_mantissa (t : time) :
  valid_time t ->
  exists a,
    Prim2SF (julianday_of t) = S754_finite false a (-31) /\
    (Z.abs (Zpos a * 86400000
            - (211813444800000 + 1000 * seconds_of t) * 2147483648)
     <= 43200000)%Z /\
    (midnight_mantissa <= Zpos a <= midnight_mantissa + 2147483648)%Z.
Proof.
  intros [Hh [Hm Hs]].
  pose proof julianday_rounded_all as H.
  rewrite forallb_forall in H. specialize (H _ (in_range 24 _ Hh)).
  rewrite forallb_forall in H. specialize (H _ (in_range 60 _ Hm)).
  rewrite forallb_forall in H. specialize (H _ (in_range 60 _ Hs)).
  unfold julianday_rounded in H. fold (seconds_of t) in H.
  change (julianday_at (seconds_of t)) with (julianday_of t) in H.
  destruct (Prim2SF (julianday_of t)) as [| | |s a e]; try discriminate.
  repeat (apply andb_prop in H; destruct H as [H ?]).
  exists a. destruct s; [discriminate|].
  apply Z.eqb_eq in H3. subst e.
  apply Z.leb_le in H0, H1, H2. repeat split; lia.
Qed.

(** The hours between two times of day, as SQLite computes them, differ
    from the exact quotient by at most 3/2^28. *)
Lemma hours_close (tin tout : time) :
  valid_time tin -> valid_time tout ->
  exists v,
    float_value (PrimFloat.mul
                   (PrimFloat.sub (julianday_of tout) (julianday_of tin))
                   24%float) = Some v /\
    Qabs (v - ((seconds_of tout - seconds_of tin) # 3600)) <= 3 # 268435456.
Proof.
  intros Hin Hout.
  destruct (julianday_of_mantissa tin Hin) as [b [Hb [Eb Rb]]].
  destruct (julianday_of_mantissa tout Hout) as [a [Ha [Ea Ra]]].
  unfold float_value.
  rewrite FloatAxioms.mul_spec, FloatAxioms.sub_spec, Ha, Hb.
  change (Prim2SF 24%float) with (S754_finite false m24 (-48)).
  destruct (Binary64Facts.sub_then_mul24 midnight_mantissa a b Ra Rb)
    as [v [Hv Hq]].
  exists v. split; [exact Hv|].
  rewrite Hq. apply Qabs_Qle_condition.
  remember (Zpos a - Zpos b)%Z as D eqn:ED.
  remember (seconds_of tout - seconds_of tin)%Z as S eqn:ES.
  assert (HD : (Z.abs (D * 86400000 - 1000 * S * 2147483648) <= 86400000)%Z)
    by lia.
  clear - HD.
  unfold Qle, Qminus, Qplus, Qopp. cbn [Qnum Qden].
  rewrite !Pos2Z.inj_mul. lia.
Qed.

(** C8, as stated, fails on the worked example: 09:00:00 to 17:30:00 gives
    the double 8.5 - 2^-28 (printed 8.49999999627471), which is not 8.5. *)
Lemma hours_worked_counterexample :
  exists h v,
    hours_worked full_day = Some h /\
    PrimFloat.eqb h 8.5%float = false /\
    float_value h = Some v /\
    v == (17 # 2) - (1 # 268435456) /\
    ~ v == 17 # 2.
Proof.
  eexists. eexists. split; [vm_compute; reflexivity|].
  split; [vm_compute; reflexivity|].
  split; [vm_compute; reflexivity|].
  split; [reflexivity | discriminate].
Qed.

(** C8, as the code has it. For a record with both punches set,
    [hours_worked] is the double (julianday(punch_out) - julianday(punch_in))
    * 24, which differs from (punch-out - punch-in) in fractional hours by
    at most 3/2^28 h (about 1.2e-8): the rounding of the two day numbers.
    For 09:00:00 and 17:30:00 it is 8.5 - 2^-28.  A record with punch-out
    unset has no [hours_worked], and the monthly [total_hours] of a user is
    the sum over that user's completed records only, so such a record
    contributes exactly 0. *)
Theorem hours_worked_within_rounding :
  (forall i n d tin tout,
      valid_time tin -> valid_time tout ->
      exists h v,
        hours_worked (mkRow i n d (strftime_HMS tin) (Some (strftime_HMS tout)))
        = Some h /\
        h = PrimFloat.mul (PrimFloat.sub (julianday_of tout) (julianday_of tin))
                          24%float /\
        float_value h = Some v /\
        Qabs (v - ((seconds_of tout - seconds_of tin) # 3600))
        <= 3 # 268435456) /\
  (exists h v,
      hours_worked full_day = Some h /\ float_value h = Some v /\
      v == (17 # 2) - (1 # 268435456)) /\
  (forall i n d tin, hours_worked (mkRow i n d tin None) = None) /\
  (forall n y m env db,
      total_hours (get_user_attendance_summary n y m env db)
      = or_zero (series_sum
                   (map df_hours_worked
                        (filter completed (user_df n y m env db))))).
Proof.
  split; [|split; [|split]].
  - intros i n d tin tout Hin Hout.
    destruct (hours_close tin tout Hin Hout) as [v [Hv Hb]].
    eexists. exists v. split; [|split; [reflexivity|split; [exact Hv|exact Hb]]].
    unfold hours_worked. cbn [punch_out punch_in].
    now rewrite (julianday_strftime tout Hout), (julianday_strftime tin Hin).
  - eexists. eexists. split; [vm_compute; reflexivity|].
    split; [vm_compute; reflexivity | reflexivity].
  - reflexivity.
  - intros n y m env db. rewrite summary_total_hours. f_equal.
    apply series_sum_completed. unfold user_df.
    pose proof (monthly_rows_incomplete y m env db) as Hall.
    rewrite Forall_forall in *. intros r Hin.
    apply filter_In in Hin. destruct Hin as [Hin _]. now apply Hall.
Qed.

Lemma hours_worked_within_rounding_witness :
  exists h v,
    hours_worked (mkRow 1 "alice" "2024-03-07" (strftime_HMS nine)
                        (Some (strftime_HMS half_past_five))) = Some h /\
    h = PrimFloat.mul (PrimFloat.sub (julianday_of half_past_five)
                                     (julianday_of nine)) 24%float /\
    float_value h = Some v /\
    Qabs (v - ((seconds_of half_past_five - seconds_of nine) # 3600))
    <= 3 # 268435456.
Proof.
  apply (proj1 hours_worked_within_rounding 1%Z "alice"%string
               "2024-03-07"%string nine half_past_five);
    unfold valid_time; simpl; lia.
Defined.


End DbProofs.


(** * Further properties of the code *)

(** ** More on the dict operations *)

Module DictMore.
Import Dict.

Lemma get_set_other {V} (d : dict V) k k' v :
  k' <> k -> get (set d k v) k' = get d k'.
Proof.
  intros Hne. induction d as [|[k0 v0] d IH]; simpl.
  - destruct (String.eqb k' k) eqn:E; [apply String.eqb_eq in E; congruence|].
    reflexivity.
  - destruct (String.eqb k k0) eqn:E; simpl.
    + apply String.eqb_eq in E. subst k0.
      destruct (String.eqb k' k) eqn:E'; [apply String.eqb_eq in E'; congruence|].
      reflexivity.
    + now rewrite IH.
Qed.

Lemma get_del_other {V} (d : dict V) k k' :
  k' <> k -> get (del d k) k' = get d k'.
Proof.
  intros Hne. induction d as [|[k0 v0] d IH]; simpl; auto.
  destruct (String.eqb k k0) eqn:E; simpl.
  - apply String.eqb_eq in E. subst k0.
    destruct (String.eqb k' k) eqn:E'; [apply String.eqb_eq in E'; congruence|].
    reflexivity.
  - now rewrite IH.
Qed.

Lemma keys_set {V} (d : dict V) k v :
  keys (set d k v) = if mem d k then keys d else keys d ++ [k].
Proof.
  unfold mem, keys. induction d as [|[k0 v0] d IH]; simpl; auto.
  destruct (String.eqb k k0) eqn:E; simpl; auto.
  rewrite IH. destruct (get d k); reflexivity.
Qed.

Lemma keys_del_subset {V} (d : dict V) k x :
  In x (keys (del d k)) -> In x (keys d).
Proof.
  unfold keys. induction d as [|[k0 v0] d IH]; simpl; auto.
  destruct (String.eqb k k0); simpl; intuition.
Qed.

Lemma keys_del_unique {V} (d : dict V) k :
  NoDup (keys d) -> NoDup (keys (del d k)) /\ ~ In k (keys (del d k)).
Proof.
  unfold keys. induction d as [|[k0 v0] d IH]; simpl; intros Hnd.
  - split; [constructor | tauto].
  - inversion Hnd as [|? ? Hnotin Hnd']; subst.
    destruct (String.eqb k k0) eqn:E; simpl.
    + apply String.eqb_eq in E. subst k0. split; assumption.
    + apply String.eqb_neq in E. destruct (IH Hnd') as [H1 H2]. split.
      * constructor; [|exact H1]. intros Hin. apply Hnotin.
        exact (keys_del_subset d k k0 Hin).
      * intros [Heq|Hin]; [congruence | tauto].
Qed.

Lemma nodup_snoc {A} (l : list A) (x : A) :
  NoDup l -> ~ In x l -> NoDup (l ++ [x]).
Proof.
  induction l as [|y l IH]; simpl; intros Hnd Hnotin.
  - constructor; [tauto | constructor].
  - inversion Hnd as [|? ? Hy Hnd']; subst. constructor.
    + intros Hin. apply in_app_or in Hin. destruct Hin as [Hin|[Heq|[]]].
      * contradiction.
      * subst. tauto.
    + apply IH; tauto.
Qed.

Lemma keys_set_unique {V} (d : dict V) k v :
  NoDup (keys d) -> NoDup (keys (set d k v)).
Proof.
  intros Hnd. rewrite keys_set. destruct (mem d k) eqn:E; [exact Hnd|].
  apply nodup_snoc; [exact Hnd|].
  intros Hin. apply DictFacts.mem_keys in Hin. congruence.
Qed.

Lemma get_del_same {V} (d : dict V) k :
  NoDup (keys d) -> get (del d k) k = None.
Proof.
  intros Hnd. destruct (keys_del_unique d k Hnd) as [_ Hnotin].
  destruct (get (del d k) k) eqn:E; [|reflexivity].
  exfalso. apply Hnotin. apply DictFacts.mem_keys. unfold mem. now rewrite E.
Qed.

End DictMore.

(** ** The gallery: enrollment, deletion, persistence, matching *)

Module GalleryProofs.
Import FaceUtils MatcherSpec GalleryVocabulary.

Lemma argmin_from_first (l pre : list Q) (best_i i : nat) (best : Q) :
  List.length pre = i ->
  (best_i < i)%nat ->
  nth best_i (pre ++ l) 0 = best ->
  (forall j, (j < i)%nat -> best <= nth j (pre ++ l) 0) ->
  (forall j, (j < best_i)%nat -> best < nth j (pre ++ l) 0) ->
  forall j, (j < argmin_from best_i best i l)%nat ->
            nth (argmin_from best_i best i l) (pre ++ l) 0
            < nth j (pre ++ l) 0.
Proof.
  revert pre best_i i best.
  induction l as [|y l IH]; intros pre best_i i best Hlen Hlt Hnth Hle Hbefore;
    simpl.
  - intros j Hj. rewrite Hnth. now apply Hbefore.
  - assert (Happ : pre ++ y :: l = (pre ++ [y]) ++ l)
      by (rewrite <- app_assoc; reflexivity).
    assert (Hy : nth i (pre ++ y :: l) 0 = y).
    { rewrite app_nth2 by lia.
      replace (i - List.length pre)%nat with 0%nat by lia. reflexivity. }
    destruct (Qltb y best) eqn:E.
    + apply Qltb_lt in E. rewrite Happ. apply IH.
      * rewrite length_app. simpl. lia.
      * lia.
      * now rewrite <- Happ.
      * intros j Hj. rewrite <- Happ.
        destruct (Nat.eq_dec j i) as [->|Hne].
        -- rewrite Hy. apply Qle_refl.
        -- apply Qle_trans with best; [now apply Qlt_le_weak|].
           apply Hle. lia.
      * intros j Hj. rewrite <- Happ.
        apply Qlt_le_trans with best; [exact E | now apply Hle].
    + apply Qltb_ge in E. rewrite Happ. apply IH.
      * rewrite length_app. simpl. lia.
      * lia.
      * now rewrite <- Happ.
      * intros j Hj. rewrite <- Happ.
        destruct (Nat.eq_dec j i) as [->|Hne].
        -- now rewrite Hy.
        -- apply Hle. lia.
      * intros j Hj. rewrite <- Happ. now apply Hbefore.
Qed.

(** [np.argmin] picks the first of several equal minima. *)
Lemma argmin_first (l : list Q) (j : nat) :
  (j < argmin l)%nat -> nth (argmin l) l 0 < nth j l 0.
Proof.
  destruct l as [|x l]; [simpl; lia|].
  intros Hj. apply (argmin_from_first l [x] 0%nat 1%nat x); auto.
  - intros k Hk. assert (k = 0%nat) by lia. subst. apply Qle_refl.
  - intros k Hk. lia.
Qed.

Section Gallery.

Variable image : Type.
Variable location : Type.
Variable face_locations : image -> outcome (list location).
Variable face_encodings : image -> location -> outcome (list encoding).
Variable norm : encoding -> Q.

Abbreviation recognize := (recognize_face face_locations face_encodings norm).
Abbreviation register := (register_face face_locations face_encodings).

(** X1: tie-break. When [recognize_face] scans the gallery, the name it
    reports belongs to the first embedding, in dict insertion order and
    then scan order, that attains the minimum distance: every embedding
    before it is strictly farther away. *)
Theorem recognize_face_first_minimum_wins img loc probe more e :
  face_locations img = Returns [loc] ->
  face_encodings img loc = Returns (probe :: more) ->
  all_known_encodings (known_faces e) <> [] ->
  let r := fst (recognize img e) in
  let ds := face_distance norm (all_known_encodings (known_faces e)) probe in
  success r = true ->
  exists i,
    (i < List.length ds)%nat /\
    name r = Some (nth i (all_known_names (known_faces e)) EmptyString) /\
    (forall x, In x ds -> nth i ds 0 <= x) /\
    (forall j, (j < i)%nat -> nth i ds 0 < nth j ds 0).
Proof.
  intros Hloc Henc Hne r ds Hsucc.
  pose proof (FaceUtilsProofs.recognize_face_scan
                image location face_locations face_encodings norm
                img loc probe more e Hloc Henc Hne) as Hscan.
  cbv zeta in Hscan. fold ds in Hscan.
  assert (Hds : ds <> []).
  { unfold ds, face_distance.
    destruct (all_known_encodings (known_faces e)); simpl; congruence. }
  destruct (FaceUtilsProofs.argmin_spec ds Hds) as [Hk [_ Hmin]].
  unfold r in *. rewrite Hscan in *.
  destruct (Qltb (nth (argmin ds) ds 0) (tolerance e)); simpl in *;
    [|discriminate].
  exists (argmin ds). repeat split; auto.
  intros j Hj. now apply argmin_first.
Qed.

Lemma save_keeps_gallery w e : known_faces (save_encodings w e) = known_faces e.
Proof. destruct w; reflexivity. Qed.

(** Whatever the image shows, enrollment either leaves the gallery alone or
    rebinds the one name. *)
Lemma register_face_gallery img user w e :
  (reg_success (fst (register img user w e)) = false /\
   known_faces (snd (register img user w e)) = known_faces e) \/
  exists encs,
    reg_success (fst (register img user w e)) = true /\
    known_faces (snd (register img user w e))
    = Dict.set (known_faces e) user encs.
Proof.
  unfold register_face, detect_faces, generate_encoding.
  destruct (face_locations img) as [[|loc [|loc' locs]]|]; cbn zeta iota beta;
    auto.
  destruct (face_encodings img loc) as [[|enc more]|]; cbn zeta iota beta; auto.
  right. destruct (Dict.get (known_faces e) user) as [encs|].
  - exists (encs ++ [enc]). cbn [fst snd reg_success]. split; [reflexivity|].
    now rewrite save_keeps_gallery.
  - exists [enc]. cbn [fst snd reg_success]. split; [reflexivity|].
    now rewrite save_keeps_gallery.
Qed.

(** X2: rejected enrollment. [register_face] succeeds exactly when one face
    is found and encoded; when it fails (no face, several faces, no
    encoding) it returns no encoding and leaves gallery and file alone. *)
Theorem register_face_rejection_changes_nothing img user w e :
  let out := register_face face_locations face_encodings img user w e in
  (reg_success (fst out) = true <->
   exists loc enc more,
     face_locations img = Returns [loc] /\
     face_encodings img loc = Returns (enc :: more)) /\
  (reg_success (fst out) = false ->
   reg_encoding (fst out) = None /\
   known_faces (snd out) = known_faces e /\
   encodings_file (snd out) = encodings_file e).
Proof.
  unfold register_face, detect_faces, generate_encoding.
  destruct (face_locations img) as [[|loc [|loc' locs]]|] eqn:Hloc;
    cbn zeta iota beta.
  - split; [split; [discriminate | intros [? [? [? [H _]]]]; discriminate]|].
    now repeat split.
  - destruct (face_encodings img loc) as [[|enc more]|] eqn:Henc;
      cbn zeta iota beta.
    + split; [split; [discriminate|]|now repeat split].
      intros [l [en [mo [H1 H2]]]]. injection H1 as <-. congruence.
    + split.
      * split; [intros _; now exists loc, enc, more|].
        destruct (Dict.get (known_faces e) user); reflexivity.
      * destruct (Dict.get (known_faces e) user); discriminate.
    + split; [split; [discriminate|]|now repeat split].
      intros [l [en [mo [H1 H2]]]]. injection H1 as <-. congruence.
  - split; [split; [discriminate | intros [? [? [? [H _]]]]; discriminate]|].
    now repeat split.
  - split; [split; [discriminate | intros [? [? [? [H _]]]]; discriminate]|].
    now repeat split.
Qed.

(** X3: recognized names. A successful recognition names a registered user
    and carries a confidence in (0, 1]; every unsuccessful one names nobody
    and carries confidence 0. *)
Theorem recognize_face_reports_registered_name
        (norm_nonneg : forall v, 0 <= norm v) img e :
  let r := fst (recognize img e) in
  (success r = true ->
   exists u, name r = Some u /\ In u (get_registered_users e) /\
             0 < confidence r /\ confidence r <= 1) /\
  (success r = false -> name r = None /\ confidence r = 0).
Proof.
  unfold recognize_face, detect_faces, generate_encoding.
  destruct (face_locations img) as [[|loc [|loc' locs]]|];
    cbn zeta iota beta; try (split; [discriminate | now split]).
  destruct (Dict.is_empty (known_faces e));
    try (split; [discriminate | now split]).
  destruct (face_encodings img loc) as [[|probe more]|];
    cbn zeta iota beta; try (split; [discriminate | now split]).
  set (ds := face_distance norm (all_known_encodings (known_faces e)) probe).
  destruct (List.length ds =? 0)%nat eqn:Hlen;
    try (split; [discriminate | now split]).
  apply Nat.eqb_neq in Hlen.
  assert (Hds : ds <> []) by (intros H; rewrite H in Hlen; now apply Hlen).
  destruct (FaceUtilsProofs.argmin_spec ds Hds) as [Hk [Hin _]].
  set (i := argmin ds) in *. set (best := nth i ds 0) in *.
  destruct (Qltb best (tolerance e)) eqn:E; cbn [fst];
    [|split; [discriminate | now split]].
  apply Qltb_lt in E. split; [|discriminate]. intros _.
  exists (nth i (all_known_names (known_faces e)) EmptyString).
  cbn [name confidence]. split; [reflexivity|].
  assert (Hki : (i < List.length (all_known_encodings (known_faces e)))%nat).
  { unfold ds, face_distance in Hk. now rewrite length_map in Hk. }
  destruct (FaceUtilsProofs.names_aligned (known_faces e) i Hki)
    as [encs [Hin1 _]].
  split.
  - unfold get_registered_users, Dict.keys.
    apply in_map_iff. now exists (nth i (all_known_names (known_faces e)) EmptyString, encs).
  - assert (H0 : 0 <= best).
    { unfold ds, face_distance in Hin. apply in_map_iff in Hin.
      destruct Hin as [enc [<- _]]. apply norm_nonneg. }
    assert (Htol : 0 < tolerance e) by lra.
    assert (Hq : best / tolerance e < 1).
    { apply Qlt_shift_div_r; [exact Htol | lra]. }
    assert (Hq0 : 0 <= best / tolerance e).
    { apply Qle_shift_div_l; [exact Htol | lra]. }
    split; lra.
Qed.

(** X4: durable enrollment. After a successful [register_face] or
    [delete_user] whose save reached the disk, an engine built on that file
    starts with the same gallery. *)
Theorem saved_gallery_survives_restart tol :
  (forall img user e,
      let out := register img user WriteLands e in
      reg_success (fst out) = true ->
      known_faces (init tol (encodings_file (snd out))) = known_faces (snd out)) /\
  (forall user e,
      let out := delete_user user WriteLands e in
      del_success (fst out) = true ->
      known_faces (init tol (encodings_file (snd out))) = known_faces (snd out)).
Proof.
  split.
  - intros img user e. cbv zeta.
    unfold register_face, detect_faces, generate_encoding.
    destruct (face_locations img) as [[|loc [|loc' locs]]|];
      cbn zeta iota beta; try discriminate.
    destruct (face_encodings img loc) as [[|enc more]|];
      cbn zeta iota beta; try discriminate.
    destruct (Dict.get (known_faces e) user); reflexivity.
  - intros user e. cbv zeta. unfold delete_user.
    destruct (Dict.mem (known_faces e) user); [reflexivity | discriminate].
Qed.

(** X5: lost enrollment. When the save of an enrollment fails and leaves the
    file as it was (the file matching the gallery before the call), the call
    still reports success and the user has one more encoding in memory, but
    an engine restarted on the file has the gallery from before the call. *)
Theorem failed_save_is_lost_on_restart img user loc enc more e tol :
  face_locations img = Returns [loc] ->
  face_encodings img loc = Returns (enc :: more) ->
  encodings_file e = Pickled (known_faces e) ->
  let out := register img user (WriteRaises (encodings_file e)) e in
  reg_success (fst out) = true /\
  get_user_encoding_count (snd out) user = S (get_user_encoding_count e user) /\
  known_faces (init tol (encodings_file (snd out))) = known_faces e /\
  get_user_encoding_count (init tol (encodings_file (snd out))) user
  = get_user_encoding_count e user.
Proof.
  intros Hloc Henc Hfile out. unfold out.
  rewrite (FaceUtilsProofs.register_face_stores
             image location face_locations face_encodings
             img user loc enc more _ e Hloc Henc).
  cbn [fst snd reg_success]. split; [reflexivity|]. split.
  - rewrite FaceUtilsProofs.count_after_set. unfold get_user_encoding_count.
    destruct (Dict.get (known_faces e) user); simpl.
    + rewrite length_app. simpl. lia.
    + reflexivity.
  - assert (Hk : known_faces
                   (init tol
                      (encodings_file
                         (save_encodings (WriteRaises (encodings_file e))
                            (set_known_faces e
                               (Dict.set (known_faces e) user
                                  match Dict.get (known_faces e) user with
                                  | Some encs => encs ++ [enc]
                                  | None => [enc]
                                  end)))))
                 = known_faces e).
    { cbn [save_encodings set_file log encodings_file set_known_faces].
      unfold init, load_encodings. cbn [encodings_file].
      rewrite Hfile. reflexivity. }
    split; [exact Hk|]. unfold get_user_encoding_count. now rewrite Hk.
Qed.

(** X6: unique names. Enrollment and deletion keep the listing of registered
    users free of duplicates, and on such a gallery a deleted user is gone
    from the listing and has no encodings left. *)
Theorem registered_names_stay_unique img user w e :
  NoDup (get_registered_users e) ->
  NoDup (get_registered_users (snd (register img user w e))) /\
  NoDup (get_registered_users (snd (delete_user user w e))) /\
  ~ In user (get_registered_users (snd (delete_user user w e))) /\
  get_user_encoding_count (snd (delete_user user w e)) user = 0%nat.
Proof.
  intros Hnd. unfold get_registered_users in *. split; [|split; [|split]].
  - destruct (register_face_gallery img user w e) as [[_ ->]|[encs [_ ->]]];
      [exact Hnd | now apply DictMore.keys_set_unique].
  - unfold delete_user. destruct (Dict.mem (known_faces e) user); [|exact Hnd].
    cbn [snd]. rewrite save_keeps_gallery. cbn [known_faces set_known_faces].
    now apply DictMore.keys_del_unique.
  - unfold delete_user. destruct (Dict.mem (known_faces e) user) eqn:E.
    + cbn [snd]. rewrite save_keeps_gallery. cbn [known_faces set_known_faces].
      now apply DictMore.keys_del_unique.
    + cbn [snd]. intros Hin. apply DictFacts.mem_keys in Hin. congruence.
  - unfold delete_user, get_user_encoding_count.
    destruct (Dict.mem (known_faces e) user) eqn:E.
    + cbn [snd]. rewrite save_keeps_gallery. cbn [known_faces set_known_faces].
      now rewrite DictMore.get_del_same.
    + cbn [snd]. unfold Dict.mem in E.
      destruct (Dict.get (known_faces e) user); [discriminate | reflexivity].
Qed.

(** X7: other users. Enrolling or deleting [user] never changes the
    encodings stored for a different name; deleting an unknown name fails
    and changes nothing at all; and a successful enrollment raises the
    number of users by one exactly when the name is new. *)
Theorem other_users_are_untouched img user other w e :
  other <> user ->
  Dict.get (known_faces (snd (register img user w e))) other
  = Dict.get (known_faces e) other /\
  Dict.get (known_faces (snd (delete_user user w e))) other
  = Dict.get (known_faces e) other /\
  (Dict.mem (known_faces e) user = false ->
   delete_user user w e = (mkDelete false (DelNotFound user), e)) /\
  (reg_success (fst (register img user w e)) = true ->
   get_user_count (snd (register img user w e))
   = if Dict.mem (known_faces e) user then get_user_count e
     else S (get_user_count e)).
Proof.
  intros Hne. split; [|split; [|split]].
  - destruct (register_face_gallery img user w e) as [[_ ->]|[encs [_ ->]]];
      [reflexivity | now apply DictMore.get_set_other].
  - unfold delete_user. destruct (Dict.mem (known_faces e) user); [|reflexivity].
    cbn [snd]. rewrite save_keeps_gallery. cbn [known_faces set_known_faces].
    now apply DictMore.get_del_other.
  - intros Hmem. unfold delete_user. now rewrite Hmem.
  - intros Hsucc. unfold get_user_count.
    destruct (register_face_gallery img user w e) as [[Hfail _]|[encs [_ Hset]]].
    + congruence.
    + rewrite Hset.
      assert (Hlen : List.length (Dict.keys (Dict.set (known_faces e) user encs))
                     = if Dict.mem (known_faces e) user
                       then List.length (Dict.keys (known_faces e))
                       else S (List.length (Dict.keys (known_faces e)))).
      { rewrite DictMore.keys_set.
        destruct (Dict.mem (known_faces e) user); [reflexivity|].
        rewrite length_app. simpl. lia. }
      unfold Dict.keys in Hlen. rewrite !length_map in Hlen. exact Hlen.
Qed.

End Gallery.

Lemma recognize_face_first_minimum_wins_witness :
  let r := fst (recognize_face one_face embed norm_axis [3 # 10] two_users) in
  let ds := face_distance norm_axis
                          (all_known_encodings (known_faces two_users))
                          [3 # 10] in
  success r = true /\
  exists i,
    (i < List.length ds)%nat /\
    name r = Some (nth i (all_known_names (known_faces two_users)) EmptyString) /\
    (forall x, In x ds -> nth i ds 0 <= x) /\
    (forall j, (j < i)%nat -> nth i ds 0 < nth j ds 0).
Proof.
  pose proof (recognize_face_first_minimum_wins
                encoding unit one_face embed norm_axis [3 # 10] tt [3 # 10] []
                two_users eq_refl eq_refl) as H.
  cbv zeta in H. cbv zeta.
  split; [vm_compute; reflexivity|].
  apply H; [discriminate | vm_compute; reflexivity].
Defined.

Lemma register_face_rejection_changes_nothing_witness :
  let out := register_face no_face embed [1] "alice" WriteLands alice_engine in
  reg_success (fst out) = false /\
  reg_encoding (fst out) = None /\
  known_faces (snd out) = known_faces alice_engine /\
  encodings_file (snd out) = encodings_file alice_engine.
Proof.
  pose proof (register_face_rejection_changes_nothing
                encoding unit no_face embed [1] "alice"%string WriteLands
                alice_engine) as H.
  cbv zeta in H. destruct H as [_ H]. cbv zeta.
  split; [reflexivity | apply H; reflexivity].
Defined.

Lemma recognize_face_reports_registered_name_witness :
  let r := fst (recognize_face one_face embed norm_axis [3 # 10] alice_engine) in
  success r = true /\
  exists u, name r = Some u /\ In u (get_registered_users alice_engine) /\
            0 < confidence r /\ confidence r <= 1.
Proof.
  pose proof (recognize_face_reports_registered_name
                encoding unit one_face embed norm_axis
                FaceUtilsProofs.norm_axis_nonneg [3 # 10] alice_engine) as H.
  cbv zeta in H. destruct H as [H _]. cbv zeta.
  split; [vm_compute; reflexivity | apply H; vm_compute; reflexivity].
Defined.

Lemma saved_gallery_survives_restart_witness :
  let out := register_face one_face embed [1] "alice" WriteLands empty_engine in
  reg_success (fst out) = true /\
  known_faces (init (6 # 10) (encodings_file (snd out))) = known_faces (snd out).
Proof.
  pose proof (proj1 (saved_gallery_survives_restart
                       encoding unit one_face embed (6 # 10))
                    [1] "alice"%string empty_engine) as H.
  cbv zeta in H. cbv zeta.
  split; [reflexivity | apply H; reflexivity].
Defined.

Lemma failed_save_is_lost_on_restart_witness :
  let out := register_face one_face embed [1] "bob"
                           (WriteRaises (encodings_file saved_engine))
                           saved_engine in
  encodings_file saved_engine = Pickled (known_faces saved_engine) /\
  reg_success (fst out) = true /\
  get_user_encoding_count (snd out) "bob"
  = S (get_user_encoding_count saved_engine "bob") /\
  known_faces (init (6 # 10) (encodings_file (snd out)))
  = known_faces saved_engine /\
  get_user_encoding_count (init (6 # 10) (encodings_file (snd out))) "bob"
  = get_user_encoding_count saved_engine "bob".
Proof.
  pose proof (failed_save_is_lost_on_restart
                encoding unit one_face embed [1] "bob"%string tt [1] []
                saved_engine (6 # 10) eq_refl eq_refl eq_refl) as H.
  cbv zeta in H. cbv zeta.
  split; [reflexivity | exact H].
Defined.

Lemma registered_names_stay_unique_witness :
  NoDup (get_registered_users two_users) /\
  NoDup (get_registered_users
           (snd (register_face one_face embed [1] "bob" WriteLands two_users))) /\
  NoDup (get_registered_users (snd (delete_user "bob" WriteLands two_users))) /\
  ~ In "bob"%string
       (get_registered_users (snd (delete_user "bob" WriteLands two_users))) /\
  get_user_encoding_count (snd (delete_user "bob" WriteLands two_users)) "bob"
  = 0%nat.
Proof.
  assert (Hnames : NoDup (get_registered_users two_users)).
  { change (NoDup ["alice"%string; "bob"%string]).
    constructor; [simpl; intros [Heq|[]]; discriminate|].
    constructor; [intros []|]. constructor. }
  split; [exact Hnames|].
  exact (registered_names_stay_unique
           encoding unit one_face embed [1] "bob"%string WriteLands two_users
           Hnames).
Defined.

Lemma other_users_are_untouched_witness :
  "alice"%string <> "bob"%string /\
  Dict.get (known_faces
              (snd (register_face one_face embed [1] "bob" WriteLands
                                  alice_engine))) "alice"
  = Dict.get (known_faces alice_engine) "alice" /\
  delete_user "bob" WriteLands alice_engine
  = (mkDelete false (DelNotFound "bob"), alice_engine) /\
  get_user_count
    (snd (register_face one_face embed [1] "bob" WriteLands alice_engine))
  = S (get_user_count alice_engine).
Proof.
  assert (Hne : "alice"%string <> "bob"%string) by discriminate.
  destruct (other_users_are_untouched
              encoding unit one_face embed [1] "bob"%string "alice"%string
              WriteLands alice_engine Hne) as [H1 [_ [H3 H4]]].
  split; [exact Hne|]. split; [exact H1|].
  split; [apply H3; reflexivity | apply H4; reflexivity].
Defined.

End GalleryProofs.

(** ** The liveness detector: buffers, warm-up, verdicts *)

Module LivenessProofs.
Import Spoof LivenessSpec LivenessVocabulary.

Lemma push_bounded_length {A} (h : list A) (x : A) (cap : nat) :
  (List.length h <= cap)%nat ->
  (List.length (push_bounded h x cap) <= cap)%nat /\
  (List.length (push_bounded h x cap) <= S (List.length h))%nat.
Proof.
  intros Hle. unfold push_bounded.
  assert (Hlen : List.length (h ++ [x]) = S (List.length h))
    by (rewrite length_app; simpl; lia).
  destruct (cap <? List.length (h ++ [x]))%nat eqn:E.
  - apply Nat.ltb_lt in E. destruct (h ++ [x]); simpl in *; lia.
  - apply Nat.ltb_ge in E. lia.
Qed.

Lemma absdiff_nonneg (a b diff : gray) :
  absdiff a b = Returns diff -> (0 <= sum diff)%Z.
Proof.
  revert b diff. induction a as [|x a IH]; intros [|y b] diff; simpl;
    try discriminate.
  - intros [= <-]. unfold sum. simpl. lia.
  - destruct (absdiff a b) as [r|] eqn:E; [|discriminate].
    intros [= <-]. specialize (IH b r E). unfold sum in *. simpl. lia.
Qed.

Section Detector.

Variable image : Type.
Variable cvtColor : image -> outcome gray.
Variable as_uint8 : image -> image.
Variable face_landmarks : image -> outcome (list landmarks).
Variable norm : point -> Q.

Abbreviation detect_blink := (detect_blink_presence as_uint8 face_landmarks norm).
Abbreviation detect_variation := (detect_frame_variation cvtColor).
Abbreviation check := (check_liveness cvtColor as_uint8 face_landmarks norm).
Abbreviation step' := (step cvtColor as_uint8 face_landmarks norm).
Abbreviation run' := (run cvtColor as_uint8 face_landmarks norm).
Abbreviation feed' := (feed cvtColor as_uint8 face_landmarks norm).

Lemma variation_effect f d :
  let d' := snd (detect_variation f d) in
  parameters d' = parameters d /\ ear_history d' = ear_history d /\
  blink_detected d' = blink_detected d /\
  (frame_history d' = frame_history d \/
   exists g, frame_history d' = push_bounded (frame_history d) g (max_history d)).
Proof.
  unfold detect_frame_variation.
  destruct (cvtColor f) as [g|]; cbn zeta; [|now repeat split; auto].
  destruct (_ <? 2)%nat; [repeat split; right; now exists g|].
  destruct (absdiff _ _); repeat split; right; now exists g.
Qed.

Lemma blink_effect f d :
  let d' := snd (detect_blink f d) in
  parameters d' = parameters d /\ frame_history d' = frame_history d /\
  ((ear_history d' = ear_history d /\ blink_detected d' = blink_detected d /\
    has_blink (fst (detect_blink f d)) = false) \/
   (exists s, ear_history d'
              = push_bounded (ear_history d) s (ear_history_len d)) /\
   has_blink (fst (detect_blink f d)) = blink_detected d').
Proof.
  unfold detect_blink_presence.
  destruct (face_landmarks _) as [[|face more]|]; cbn zeta;
    try (repeat split; left; now repeat split).
  destruct (compute_eye_aspect_ratio norm (left_eye face)) as [l|];
    [|repeat split; left; now repeat split].
  destruct (compute_eye_aspect_ratio norm (right_eye face)) as [r|];
    [|repeat split; left; now repeat split].
  repeat split. right. split; [|reflexivity]. now exists ((l + r) / 2).
Qed.

Lemma step_keeps_parameters c d : parameters (step' c d) = parameters d.
Proof.
  destruct c as [f|f|f|]; cbn [step].
  - unfold check_liveness.
    pose proof (variation_effect f d) as Hv. cbv zeta in Hv.
    destruct (detect_variation f d) as [v d1]. cbn [snd] in Hv.
    pose proof (blink_effect f d1) as Hb. cbv zeta in Hb.
    destruct (detect_blink f d1) as [b d2]. cbn [snd] in *.
    destruct Hv as [Hv _]. destruct Hb as [Hb _]. congruence.
  - apply blink_effect.
  - apply variation_effect.
  - reflexivity.
Qed.

Lemma variation_keeps_bounds f d :
  buffers_bounded d -> buffers_bounded (snd (detect_variation f d)).
Proof.
  intros [Hf He]. pose proof (variation_effect f d) as Hv. cbv zeta in Hv.
  destruct Hv as [Hp [Hear [_ Hfh]]].
  unfold parameters in Hp. injection Hp as _ _ Hmax Hlen.
  unfold buffers_bounded. rewrite Hear, Hmax, Hlen. split; [|exact He].
  destruct Hfh as [->|[g ->]]; [exact Hf|].
  now apply push_bounded_length.
Qed.

Lemma blink_keeps_bounds f d :
  buffers_bounded d -> buffers_bounded (snd (detect_blink f d)).
Proof.
  intros [Hf He]. pose proof (blink_effect f d) as Hb. cbv zeta in Hb.
  destruct Hb as [Hp [Hfh Hear]].
  unfold parameters in Hp. injection Hp as _ _ Hmax Hlen.
  unfold buffers_bounded. rewrite Hfh, Hmax, Hlen. split; [exact Hf|].
  destruct Hear as [[-> _]|[[s ->] _]]; [exact He|].
  now apply push_bounded_length.
Qed.

Lemma step_keeps_bounds c d : buffers_bounded d -> buffers_bounded (step' c d).
Proof.
  intros Hb. destruct c as [f|f|f|]; cbn [step].
  - unfold check_liveness.
    pose proof (variation_keeps_bounds f d Hb) as Hv.
    destruct (detect_variation f d) as [v d1]. cbn [snd] in Hv.
    pose proof (blink_keeps_bounds f d1 Hv) as Hb2.
    destruct (detect_blink f d1) as [b d2]. exact Hb2.
  - now apply blink_keeps_bounds.
  - now apply variation_keeps_bounds.
  - unfold buffers_bounded, reset. simpl. lia.
Qed.

(** X8: bounded buffers. Whatever calls a detector receives after its
    construction, it never holds more than 5 frames nor more EAR samples
    than its window length. *)
Theorem buffers_stay_bounded blink_thr variation_thr history_len calls :
  let d := run' calls (init blink_thr variation_thr history_len) in
  (List.length (frame_history d) <= 5)%nat /\
  (List.length (ear_history d) <= history_len)%nat.
Proof.
  cbv zeta.
  assert (H : forall d0, buffers_bounded d0 ->
                         parameters (run' calls d0) = parameters d0 /\
                         buffers_bounded (run' calls d0)).
  { unfold run. induction calls as [|c calls IH]; intros d0 H0; simpl; auto.
    destruct (IH (step' c d0) (step_keeps_bounds c d0 H0)) as [Hp Hb].
    split; [|exact Hb]. rewrite Hp. apply step_keeps_parameters. }
  destruct (H (init blink_thr variation_thr history_len)) as [Hp [Hf He]].
  { unfold buffers_bounded, init. simpl. lia. }
  unfold parameters in Hp. injection Hp as _ _ Hmax Hlen.
  rewrite Hmax in Hf. rewrite Hlen in He. split; assumption.
Qed.

(** X9: reset. After any calls, [reset()] gives back the detector as it was
    constructed. *)
Theorem reset_restores_construction blink_thr variation_thr history_len calls :
  reset (run' calls (init blink_thr variation_thr history_len))
  = init blink_thr variation_thr history_len.
Proof.
  assert (H : forall d0, parameters (run' calls d0) = parameters d0).
  { unfold run. induction calls as [|c calls IH]; intros d0; simpl; auto.
    rewrite IH. apply step_keeps_parameters. }
  specialize (H (init blink_thr variation_thr history_len)).
  unfold parameters in H. injection H as H1 H2 H3 H4.
  unfold reset. rewrite H1, H2, H3, H4. reflexivity.
Qed.

(** While the flag is clear and the window cannot fill up, one more frame
    is not live and leaves the flag clear. *)
Lemma check_before_window_full f d :
  blink_detected d = false ->
  (S (List.length (ear_history d)) < ear_history_len d)%nat ->
  is_live (fst (check f d)) = false /\
  blink_detected (snd (check f d)) = false /\
  (List.length (ear_history (snd (check f d)))
   <= S (List.length (ear_history d)))%nat /\
  ear_history_len (snd (check f d)) = ear_history_len d.
Proof.
  intros Hflag Hroom. unfold check_liveness.
  pose proof (variation_effect f d) as Hv. cbv zeta in Hv.
  destruct (detect_variation f d) as [v d1]. cbn [fst snd] in *.
  destruct Hv as [Hp [Hear [Hbd _]]].
  unfold parameters in Hp. injection Hp as _ _ _ Hlen.
  assert (Hb : has_blink (fst (detect_blink f d1)) = false /\
               blink_detected (snd (detect_blink f d1)) = false /\
               (List.length (ear_history (snd (detect_blink f d1)))
                <= S (List.length (ear_history d1)))%nat /\
               ear_history_len (snd (detect_blink f d1)) = ear_history_len d1).
  { unfold detect_blink_presence.
    destruct (face_landmarks _) as [[|face more]|]; cbn zeta;
      try (cbn; repeat split; try congruence; lia).
    destruct (compute_eye_aspect_ratio norm (left_eye face)) as [l|];
      [|cbn; repeat split; try congruence; lia].
    destruct (compute_eye_aspect_ratio norm (right_eye face)) as [r|];
      [|cbn; repeat split; try congruence; lia].
    cbn [fst snd has_blink blink_detected ear_history ear_history_len set_ear].
    assert (Hd1 : (List.length (ear_history d1) <= ear_history_len d1)%nat)
      by (rewrite Hear, Hlen; lia).
    destruct (push_bounded_length (ear_history d1) ((l + r) / 2)
                                  (ear_history_len d1) Hd1) as [_ Hgrow].
    set (h := push_bounded (ear_history d1) ((l + r) / 2) (ear_history_len d1))
      in *.
    assert (E : (List.length h =? ear_history_len d1)%nat = false).
    { apply Nat.eqb_neq. rewrite Hear, Hlen in *. lia. }
    rewrite E. repeat split; congruence. }
  destruct (detect_blink f d1) as [b d2]. cbn [fst snd] in *.
  destruct Hb as [Hb1 [Hb2 [Hb3 Hb4]]].
  split; [rewrite Hb1; apply andb_false_r|].
  split; [exact Hb2|]. split; [rewrite <- Hear; exact Hb3 | congruence].
Qed.

Lemma feed_before_window_full frames d :
  blink_detected d = false ->
  (List.length (ear_history d) + List.length frames < ear_history_len d)%nat ->
  Forall (fun r => is_live r = false) (fst (feed' frames d)) /\
  blink_detected (snd (feed' frames d)) = false.
Proof.
  revert d. induction frames as [|f frames IH]; intros d Hflag Hroom; simpl.
  - split; [constructor | exact Hflag].
  - simpl in Hroom.
    destruct (check_before_window_full f d Hflag) as [Hl [Hb [Hgrow Hlen]]];
      [lia|].
    destruct (check f d) as [r d1]. cbn [fst snd] in *.
    destruct (IH d1 Hb) as [Hrest Hb']; [lia|].
    destruct (feed' frames d1) as [rs d2]. cbn [fst snd] in *.
    split; [now constructor | exact Hb'].
Qed.

(** X10: warm-up. A session that starts with an empty EAR window and no blink
    seen cannot turn live, nor set the blink flag, within fewer frames than
    the window length (10 by default), whatever the frames show. *)
Theorem no_live_verdict_during_warm_up frames d :
  ear_history d = [] ->
  blink_detected d = false ->
  (List.length frames < ear_history_len d)%nat ->
  Forall (fun r => is_live r = false)
         (fst (feed cvtColor as_uint8 face_landmarks norm frames d)) /\
  blink_detected (snd (feed cvtColor as_uint8 face_landmarks norm frames d))
  = false.
Proof.
  intros Hh Hflag Hlen. apply feed_before_window_full; [exact Hflag|].
  rewrite Hh. simpl. exact Hlen.
Qed.

(** X11: frames without landmarks. When no face landmarks are found in a
    frame (or the landmark call raises), [check_liveness] is not live on
    that frame even if a blink was seen before; the flag and the EAR window
    stay as they were. *)
Theorem frame_without_landmarks_is_not_live f d :
  face_landmarks (as_uint8 f) = Returns [] \/
  face_landmarks (as_uint8 f) = Raises ->
  is_live (fst (check_liveness cvtColor as_uint8 face_landmarks norm f d))
  = false /\
  blink_detected
    (snd (check_liveness cvtColor as_uint8 face_landmarks norm f d))
  = blink_detected d /\
  ear_history (snd (check_liveness cvtColor as_uint8 face_landmarks norm f d))
  = ear_history d.
Proof.
  intros Hnone. unfold check_liveness.
  pose proof (variation_effect f d) as Hv. cbv zeta in Hv.
  destruct (detect_variation f d) as [v d1]. cbn [fst snd] in *.
  destruct Hv as [_ [Hear [Hbd _]]].
  unfold detect_blink_presence.
  destruct Hnone as [-> | ->]; cbn [fst snd has_blink blink_failed];
    (split; [apply andb_false_r | split; assumption]).
Qed.

(** X12: comparison with the previous frame. Once a frame is buffered, the
    variation verdict compares the new frame with the one fed just before
    it: the score is the sum of their absolute pixel differences and the
    verdict is [score > threshold]; dropping the oldest frame does not
    disturb this. *)
Theorem variation_compares_consecutive_frames f d g diff :
  frame_history d <> [] ->
  (2 <= max_history d)%nat ->
  cvtColor f = Returns g ->
  absdiff (last (frame_history d) []) g = Returns diff ->
  let r := fst (detect_variation f d) in
  variation_score r = sum diff /\
  var_is_live r = (frame_variation_threshold d <? sum diff)%Z /\
  last (frame_history (snd (detect_variation f d))) [] = g.
Proof.
  intros Hne Hmax Hcvt Hdiff. unfold detect_frame_variation.
  rewrite Hcvt. cbn zeta.
  destruct (exists_last Hne) as [h0 [prev Hh]].
  rewrite Hh in *. rewrite last_last in Hdiff.
  set (h := push_bounded (h0 ++ [prev]) g (max_history d)).
  assert (Hh' : exists pre, h = pre ++ [prev; g]).
  { unfold h, push_bounded. rewrite <- app_assoc. simpl.
    destruct (max_history d <? List.length (h0 ++ [prev; g]))%nat eqn:E;
      [|now exists h0].
    destruct h0 as [|x h0]; simpl.
    - apply Nat.ltb_lt in E. simpl in E. lia.
    - now exists h0. }
  destruct Hh' as [pre Hpre]. rewrite Hpre.
  assert (Hlen : List.length (pre ++ [prev; g]) = S (S (List.length pre)))
    by (rewrite length_app; simpl; lia).
  assert (Hlt : (List.length (pre ++ [prev; g]) <? 2)%nat = false)
    by (apply Nat.ltb_ge; lia).
  rewrite Hlt.
  assert (Hnth : nth (List.length (pre ++ [prev; g]) - 2) (pre ++ [prev; g]) []
                 = prev).
  { rewrite Hlen, app_nth2 by lia.
    replace (S (S (List.length pre)) - 2 - List.length pre)%nat with 0%nat
      by lia. reflexivity. }
  assert (Hlast : last (pre ++ [prev; g]) [] = g).
  { change [prev; g] with ([prev] ++ [g]). now rewrite app_assoc, last_last. }
  rewrite Hnth, Hlast, Hdiff. cbn [fst snd variation_score var_is_live].
  repeat split. cbn [frame_history set_frame_history]. exact Hlast.
Qed.

(** X13: confidence. The confidence reported by [check_liveness] lies in
    [0, 1], the variation score is never negative, and a live verdict
    carries a confidence of at least one half. *)
Theorem liveness_confidence_in_range f d :
  let r := fst (check_liveness cvtColor as_uint8 face_landmarks norm f d) in
  0 <= confidence r /\ confidence r <= 1 /\
  (0 <= details_variation_score r)%Z /\
  (is_live r = true -> 1 # 2 <= confidence r).
Proof.
  unfold check_liveness.
  assert (Hscore : (0 <= variation_score (fst (detect_variation f d)))%Z).
  { unfold detect_frame_variation.
    destruct (cvtColor f) as [g|]; cbn zeta; [|simpl; lia].
    destruct (_ <? 2)%nat; [simpl; lia|].
    destruct (absdiff _ _) as [diff|] eqn:E; [|simpl; lia].
    cbn [fst variation_score]. exact (absdiff_nonneg _ _ _ E). }
  destruct (detect_variation f d) as [v d1]. cbn [fst] in Hscore.
  destruct (detect_blink f d1) as [b d2].
  cbn [fst confidence is_live details_variation_score].
  set (x := inject_Z (variation_score v) / 5000).
  assert (Hx : 0 <= x).
  { unfold x. apply Qle_shift_div_l; [reflexivity|].
    rewrite Qmult_0_l. change 0 with (inject_Z 0).
    rewrite <- Zle_Qle. exact Hscore. }
  assert (Hmin : 0 <= Qmin 1 x /\ Qmin 1 x <= 1).
  { split; [apply Q.min_glb; [discriminate | exact Hx] | apply Q.le_min_l]. }
  destruct Hmin as [Hm0 Hm1].
  destruct (has_blink b); repeat split; try exact Hscore.
  - apply Qle_shift_div_l; [reflexivity | lra].
  - apply Qle_shift_div_r; [reflexivity | lra].
  - intros _. apply Qle_shift_div_l; [reflexivity | lra].
  - apply Qle_shift_div_l; [reflexivity | lra].
  - apply Qle_shift_div_r; [reflexivity | lra].
  - rewrite andb_false_r. discriminate.
Qed.

End Detector.

Lemma no_live_verdict_during_warm_up_witness :
  (List.length warm_up < ear_history_len default)%nat /\
  Forall (fun r => is_live r = false)
         (fst (feed to_gray same_frame landmarks_of norm_axis warm_up default)) /\
  blink_detected
    (snd (feed to_gray same_frame landmarks_of norm_axis warm_up default))
  = false.
Proof.
  assert (Hlen : (List.length warm_up < ear_history_len default)%nat)
    by (vm_compute; lia).
  split; [exact Hlen|].
  exact (no_live_verdict_during_warm_up
           frame to_gray same_frame landmarks_of norm_axis warm_up default
           eq_refl eq_refl Hlen).
Defined.

Lemma frame_without_landmarks_is_not_live_witness :
  blink_detected after_blink = true /\
  is_live (fst (check_liveness to_gray same_frame landmarks_of norm_axis
                               no_landmarks after_blink)) = false /\
  blink_detected (snd (check_liveness to_gray same_frame landmarks_of norm_axis
                                      no_landmarks after_blink))
  = blink_detected after_blink /\
  ear_history (snd (check_liveness to_gray same_frame landmarks_of norm_axis
                                   no_landmarks after_blink))
  = ear_history after_blink.
Proof.
  split; [vm_compute; reflexivity|].
  apply (frame_without_landmarks_is_not_live
           frame to_gray same_frame landmarks_of norm_axis no_landmarks
           after_blink).
  left. reflexivity.
Defined.

Lemma variation_compares_consecutive_frames_witness :
  let r := fst (detect_frame_variation to_gray moved after_one_frame) in
  variation_score r = sum [200; 200; 200; 200]%Z /\
  var_is_live r
  = (frame_variation_threshold after_one_frame <? sum [200; 200; 200; 200])%Z /\
  last (frame_history
          (snd (detect_frame_variation to_gray moved after_one_frame))) []
  = [200; 200; 200; 200]%Z.
Proof.
  assert (Hhist : frame_history after_one_frame <> [])
    by (vm_compute; discriminate).
  assert (Hcap : (2 <= max_history after_one_frame)%nat)
    by (vm_compute; lia).
  assert (Hdiff : absdiff (last (frame_history after_one_frame) [])
                          [200; 200; 200; 200]%Z
                  = Returns [200; 200; 200; 200]%Z)
    by (vm_compute; reflexivity).
  exact (variation_compares_consecutive_frames
           frame to_gray moved after_one_frame [200; 200; 200; 200]%Z
           [200; 200; 200; 200]%Z Hhist Hcap eq_refl Hdiff).
Defined.

Lemma liveness_confidence_in_range_witness :
  let r := fst (check_liveness to_gray same_frame landmarks_of norm_axis
                               moved after_blink) in
  is_live r = true /\ 1 # 2 <= confidence r /\ confidence r <= 1.
Proof.
  pose proof (liveness_confidence_in_range
                frame to_gray same_frame landmarks_of norm_axis moved
                after_blink) as H.
  cbv zeta in H. destruct H as [_ [Hle [_ Hlive]]]. cbv zeta.
  assert (Hl : is_live (fst (check_liveness to_gray same_frame landmarks_of
                                            norm_axis moved after_blink))
               = true) by (vm_compute; reflexivity).
  split; [exact Hl|]. split; [exact (Hlive Hl) | exact Hle].
Defined.

End LivenessProofs.

(** ** Bytewise order on text *)

Module TextOrder.

Lemma ascii_compare_refl (a : ascii) : Ascii.compare a a = Eq.
Proof. unfold Ascii.compare. apply N.compare_refl. Qed.

Lemma ascii_lt_trans (a b c : ascii) :
  Ascii.compare a b = Lt -> Ascii.compare b c = Lt -> Ascii.compare a c = Lt.
Proof.
  unfold Ascii.compare. rewrite !N.compare_lt_iff. apply N.lt_trans.
Qed.

Lemma compare_refl (s : string) : String.compare s s = Eq.
Proof.
  induction s as [|a s IH]; simpl; auto. now rewrite ascii_compare_refl.
Qed.

Lemma compare_lt_trans (a b c : string) :
  String.compare a b = Lt -> String.compare b c = Lt -> String.compare a c = Lt.
Proof.
  revert b c. induction a as [|x a IH]; intros [|y b] [|z c]; simpl;
    try discriminate; auto.
  destruct (Ascii.compare x y) eqn:Exy; try discriminate.
  - apply Ascii.compare_eq_iff in Exy. subst y.
    destruct (Ascii.compare x z); auto. apply IH.
  - intros _. destruct (Ascii.compare y z) eqn:Eyz; try discriminate.
    + apply Ascii.compare_eq_iff in Eyz. subst z. now rewrite Exy.
    + intros _. now rewrite (ascii_lt_trans x y z Exy Eyz).
Qed.

Lemma compare_gt_lt (a b : string) :
  String.compare a b = Gt <-> String.compare b a = Lt.
Proof.
  rewrite (String.compare_antisym a b).
  destruct (String.compare b a); simpl; split; congruence.
Qed.

(** On prefixes of equal length the comparison is decided by the prefixes,
    and by the rests when the prefixes agree. *)
Lemma compare_append (a b x y : string) :
  String.length a = String.length b ->
  String.compare (a ++ x) (b ++ y)
  = match String.compare a b with
    | Eq => String.compare x y
    | c => c
    end.
Proof.
  revert b. induction a as [|c a IH]; intros [|c' b]; simpl; try discriminate;
    auto.
  intros [= Hlen]. destruct (Ascii.compare c c'); auto.
Qed.

Lemma length_append (a b : string) :
  String.length (a ++ b) = (String.length a + String.length b)%nat.
Proof. induction a as [|c a IH]; simpl; auto. Qed.

Lemma text_le_trans (a b c : string) :
  Db.text_le a b = true -> Db.text_le b c = true -> Db.text_le a c = true.
Proof.
  unfold Db.text_le.
  destruct (String.compare a b) eqn:Eab; try discriminate;
    destruct (String.compare b c) eqn:Ebc; try discriminate; intros _ _.
  - apply String.compare_eq_iff in Eab. subst. now rewrite Ebc.
  - apply String.compare_eq_iff in Eab. subst. now rewrite Ebc.
  - apply String.compare_eq_iff in Ebc. subst. now rewrite Eab.
  - now rewrite (compare_lt_trans a b c Eab Ebc).
Qed.

Lemma text_le_total (a b : string) :
  Db.text_le a b = false -> Db.text_le b a = true.
Proof.
  unfold Db.text_le. destruct (String.compare a b) eqn:E; try discriminate.
  intros _. apply compare_gt_lt in E. now rewrite E.
Qed.

End TextOrder.

(** ** The ledger: invariants, queries, hours *)

Module LedgerProofs.
Import Db LedgerSpec Binary64 LedgerVocabulary.

Lemma max_id_row_some (b : row) (l : list row) :
  exists r, max_id_row (Some b) l = Some r /\ (r = b \/ In r l).
Proof.
  revert b. induction l as [|x l IH]; intros b; simpl.
  - exists b. auto.
  - destruct (id b <? id x)%Z.
    + destruct (IH x) as [r [Hr Hin]]. exists r. split; [exact Hr|].
      destruct Hin; auto.
    + destruct (IH b) as [r [Hr Hin]]. exists r. split; [exact Hr|].
      destruct Hin; auto.
Qed.

Lemma select_latest_none (db : database) (n d : string) :
  select_latest db n d = None -> filter (matches n d) (rows db) = [].
Proof.
  unfold select_latest. destruct (filter (matches n d) (rows db)) as [|x l];
    [reflexivity|]. simpl.
  destruct (max_id_row_some x l) as [r [Hr _]]. congruence.
Qed.

Lemma select_latest_some (db : database) (n d : string) (r : row) :
  select_latest db n d = Some r -> In r (rows db) /\ matches n d r = true.
Proof.
  unfold select_latest. intros H.
  assert (Hin : In r (filter (matches n d) (rows db))).
  { destruct (filter (matches n d) (rows db)) as [|x l]; [discriminate|].
    simpl in H. destruct (max_id_row_some x l) as [r' [Hr' Hin]].
    assert (r' = r) by congruence. subst r'.
    destruct Hin as [->|Hin]; [now left | now right]. }
  now apply filter_In in Hin.
Qed.

Lemma matches_true (n d : string) (r : row) :
  matches n d r = true <-> name r = n /\ date_ r = d.
Proof.
  unfold matches. rewrite andb_true_iff, !String.eqb_eq. tauto.
Qed.

Lemma update_rows (db : database) (t : string) (rid : Z) :
  rows (update_punch_out db t rid) = map (punch_out_row t rid) (rows db).
Proof. reflexivity. Qed.

Lemma punch_out_row_keeps (t : string) (rid : Z) (r : row) :
  id (punch_out_row t rid r) = id r /\
  name (punch_out_row t rid r) = name r /\
  date_ (punch_out_row t rid r) = date_ r /\
  punch_in (punch_out_row t rid r) = punch_in r.
Proof. unfold punch_out_row. destruct (id r =? rid)%Z; now repeat split. Qed.

Lemma filter_map_length {A} (p : A -> bool) (g : A -> A) (l : list A) :
  (forall x, p (g x) = p x) ->
  List.length (filter p (map g l)) = List.length (filter p l).
Proof.
  intros Hp. induction l as [|x l IH]; simpl; auto.
  rewrite Hp. destruct (p x); simpl; now rewrite IH.
Qed.

(** The three things a call can do to the table. *)
Lemma mark_attendance_effect n today now env db :
  let db' := snd (mark_attendance n today now env db) in
  db' = db \/
  (select_latest db n (strftime_Ymd today) = None /\
   db' = insert db n (strftime_Ymd today) (strftime_HMS now)) \/
  (exists record,
      select_latest db n (strftime_Ymd today) = Some record /\
      punch_out record = None /\
      db' = update_punch_out db (strftime_HMS now) (id record)).
Proof.
  unfold mark_attendance. destruct env; [|now left].
  destruct (select_latest db n (strftime_Ymd today)) as [record|] eqn:E.
  - destruct (punch_out record) eqn:Ep; [now left|].
    right. right. now exists record.
  - right. left. now split.
Qed.

(** X14: one row per user and day. Every [mark_attendance] call keeps the
    table at no more than one row for each user on each day. *)
Theorem mark_attendance_keeps_one_row_per_day n today now env db :
  one_row_per_day db ->
  one_row_per_day (snd (mark_attendance n today now env db)).
Proof.
  intros Hone.
  destruct (mark_attendance_effect n today now env db)
    as [->|[[Hnone ->]|[record [_ [_ ->]]]]]; [exact Hone| |].
  - intros n' d'. unfold insert. cbn [rows].
    rewrite filter_app, length_app. cbn [filter].
    destruct (matches n' d' _) eqn:E; cbn [List.length].
    + apply matches_true in E. cbn [name date_] in E. destruct E as [<- <-].
      rewrite (select_latest_none db _ _ Hnone). simpl. lia.
    + specialize (Hone n' d'). lia.
  - intros n' d'. rewrite update_rows.
    rewrite filter_map_length; [apply Hone|].
    intros r. unfold matches.
    destruct (punch_out_row_keeps (strftime_HMS now) (id record) r)
      as [_ [-> [-> _]]]. reflexivity.
Qed.

(** X15: ids. Every call keeps the stored ids pairwise distinct and at most
    the AUTOINCREMENT counter. *)
Theorem mark_attendance_keeps_ids_distinct n today now env db :
  ids_bounded db -> distinct_ids db ->
  ids_bounded (snd (mark_attendance n today now env db)) /\
  distinct_ids (snd (mark_attendance n today now env db)).
Proof.
  intros Hb Hd. split; [now apply DbProofs.mark_attendance_keeps_ids_bounded|].
  destruct (mark_attendance_effect n today now env db)
    as [->|[[_ ->]|[record [_ [_ ->]]]]]; [exact Hd| |].
  - unfold distinct_ids, insert. cbn [rows]. rewrite map_app. cbn [map id].
    apply DictMore.nodup_snoc; [exact Hd|].
    intros Hin. apply in_map_iff in Hin. destruct Hin as [r [Hid Hin]].
    unfold ids_bounded in Hb. rewrite Forall_forall in Hb.
    specialize (Hb r Hin). lia.
  - unfold distinct_ids. rewrite update_rows, map_map.
    erewrite map_ext; [exact Hd|].
    intros r. apply punch_out_row_keeps.
Qed.

Lemma update_touches_one_row (t : string) (record : row) (l : list row)
      (p : row -> bool) :
  NoDup (map id l) -> In record l -> p record = false ->
  (forall r, p (punch_out_row t (id record) r) = p r) ->
  filter p (map (punch_out_row t (id record)) l) = filter p l.
Proof.
  intros Hnd Hin Hrec Hp. induction l as [|x l IH]; simpl; auto.
  inversion Hnd as [|? ? Hx Hnd']; subst. rewrite Hp.
  destruct (Z.eq_dec (id x) (id record)) as [Heq|Hne].
  - assert (x = record).
    { destruct Hin as [->|Hin]; [reflexivity|]. exfalso. apply Hx.
      rewrite Heq. now apply in_map. }
    subst x. rewrite Hrec.
    assert (Hsame : map (punch_out_row t (id record)) l = l).
    { rewrite <- (map_id l) at 2. apply map_ext_in. intros r Hr.
      unfold punch_out_row.
      destruct (id r =? id record)%Z eqn:E; [|reflexivity].
      apply Z.eqb_eq in E. exfalso. apply Hx. rewrite <- E. now apply in_map. }
    now rewrite Hsame.
  - assert (Hx' : punch_out_row t (id record) x = x).
    { unfold punch_out_row.
      destruct (id x =? id record)%Z eqn:E; [|reflexivity].
      apply Z.eqb_eq in E. contradiction. }
    rewrite Hx'.
    destruct Hin as [->|Hin]; [contradiction|].
    rewrite (IH Hnd' Hin). reflexivity.
Qed.

(** X16: other rows. A call for user [n] on day [today] leaves every row of
    another user or another day exactly as it was, and adds none. *)
Theorem mark_attendance_leaves_other_rows n today now env db :
  distinct_ids db ->
  filter (fun r => negb (matches n (strftime_Ymd today) r))
         (rows (snd (mark_attendance n today now env db)))
  = filter (fun r => negb (matches n (strftime_Ymd today) r)) (rows db).
Proof.
  intros Hd.
  destruct (mark_attendance_effect n today now env db)
    as [->|[[_ ->]|[record [Hsel [_ ->]]]]]; [reflexivity| |].
  - unfold insert. cbn [rows]. rewrite filter_app. cbn [filter].
    rewrite DbProofs.matches_refl. cbn [negb]. now rewrite app_nil_r.
  - rewrite update_rows.
    destruct (select_latest_some db _ _ _ Hsel) as [Hin Hm].
    apply update_touches_one_row; auto.
    + now rewrite Hm.
    + intros r. unfold matches.
      destruct (punch_out_row_keeps (strftime_HMS now) (id record) r)
        as [_ [-> [-> _]]]. reflexivity.
Qed.

(** Names in the table after a call: the caller's, or one already there. *)
Lemma mark_attendance_names n today now env db r' :
  In r' (rows (snd (mark_attendance n today now env db))) ->
  name r' = n \/ In (name r') (map name (rows db)).
Proof.
  destruct (mark_attendance_effect n today now env db)
    as [->|[[_ ->]|[record [_ [_ ->]]]]].
  - intros Hin. right. now apply in_map.
  - unfold insert. cbn [rows]. intros Hin. apply in_app_or in Hin.
    destruct Hin as [Hin|[<-|[]]]; [right; now apply in_map | now left].
  - rewrite update_rows. intros Hin. apply in_map_iff in Hin.
    destruct Hin as [r [<- Hin]]. right.
    destruct (punch_out_row_keeps (strftime_HMS now) (id record) r)
      as [_ [-> _]]. now apply in_map.
Qed.

(** *** Hours *)

(** X17: sign of the hours. For times of day written by [strftime], the
    hours between punch-in and punch-out are positive when punch-out is
    later, zero when both are the same second, negative when it is
    earlier: rounding never turns the sign. *)
Theorem hours_worked_sign i n d tin tout :
  valid_time tin -> valid_time tout ->
  exists h v,
    hours_worked (mkRow i n d (strftime_HMS tin) (Some (strftime_HMS tout)))
    = Some h /\
    float_value h = Some v /\
    ((seconds_of tin < seconds_of tout)%Z -> 0 < v) /\
    (seconds_of tin = seconds_of tout -> v == 0) /\
    ((seconds_of tout < seconds_of tin)%Z -> v < 0).
Proof.
  intros Hin Hout.
  destruct (DbProofs.julianday_of_mantissa tin Hin) as [b [Hb [Eb Rb]]].
  destruct (DbProofs.julianday_of_mantissa tout Hout) as [a [Ha [Ea Ra]]].
  destruct (Binary64Facts.sub_then_mul24 midnight_mantissa a b Ra Rb)
    as [v [Hv Hq]].
  exists (PrimFloat.mul (PrimFloat.sub (julianday_of tout) (julianday_of tin))
                        24%float), v.
  split.
  { unfold hours_worked. cbn [punch_out punch_in].
    now rewrite (DbProofs.julianday_strftime tout Hout),
                (DbProofs.julianday_strftime tin Hin). }
  split.
  { unfold float_value.
    rewrite FloatAxioms.mul_spec, FloatAxioms.sub_spec, Ha, Hb.
    change (Prim2SF 24%float) with (S754_finite false m24 (-48)).
    exact Hv. }
  assert (Hsame : seconds_of tin = seconds_of tout -> a = b).
  { intros Hs. unfold julianday_of in Ha, Hb. rewrite Hs in Hb.
    rewrite Ha in Hb. now injection Hb. }
  split; [|split].
  - intros Hlt. rewrite Hq. unfold Qlt. cbn [Qnum Qden]. lia.
  - intros Hs. rewrite Hq, (Hsame Hs). unfold Qeq. cbn [Qnum Qden]. lia.
  - intros Hlt. rewrite Hq. unfold Qlt. cbn [Qnum Qden]. lia.
Qed.

(** *** Queries *)

Lemma insert_sorted_perm (r : row) (l : list row) :
  Permutation (insert_sorted r l) (r :: l).
Proof.
  induction l as [|x l IH]; simpl; [reflexivity|].
  destruct (order_before x r); [|reflexivity].
  rewrite IH. apply perm_swap.
Qed.

Lemma insert_by_punch_in_perm (r : row) (l : list row) :
  Permutation (insert_by_punch_in r l) (r :: l).
Proof.
  induction l as [|x l IH]; simpl; [reflexivity|].
  destruct (text_le (punch_in x) (punch_in r)); [|reflexivity].
  rewrite IH. apply perm_swap.
Qed.

Lemma fold_insert_perm (ins : row -> list row -> list row) :
  (forall r l, Permutation (ins r l) (r :: l)) ->
  forall l acc, Permutation (fold_left (fun a r => ins r a) l acc) (l ++ acc).
Proof.
  intros Hins. induction l as [|x l IH]; intros acc; simpl; [reflexivity|].
  rewrite IH, Hins. symmetry. apply Permutation_middle.
Qed.

Lemma monthly_perm y m db :
  Permutation (get_monthly_attendance y m SqliteOk db)
              (map select_row (filter (in_month y m) (rows db))).
Proof.
  unfold get_monthly_attendance, order_by. apply Permutation_map.
  rewrite (fold_insert_perm insert_sorted insert_sorted_perm).
  now rewrite app_nil_r.
Qed.

(** X18: queries return the stored rows. The monthly query returns each
    stored row whose date lies in [start, end) exactly once, today's query
    each stored row dated today exactly once, every line with the hours of
    its row; when the query raises, both return nothing. *)
Theorem queries_return_matching_rows y m today db :
  Permutation (get_monthly_attendance y m SqliteOk db)
              (map select_row (filter (in_month y m) (rows db))) /\
  Permutation (get_today_attendance today SqliteOk db)
              (map select_row
                   (filter (fun r => String.eqb (date_ r) (strftime_Ymd today))
                           (rows db))) /\
  get_monthly_attendance y m SqliteRaises db = [] /\
  get_today_attendance today SqliteRaises db = [].
Proof.
  split; [apply monthly_perm|split; [|split; reflexivity]].
  unfold get_today_attendance. apply Permutation_map.
  rewrite (fold_insert_perm insert_by_punch_in insert_by_punch_in_perm).
  now rewrite app_nil_r.
Qed.

Lemma perm_filter_length {A} (p : A -> bool) (l l' : list A) :
  Permutation l l' -> List.length (filter p l) = List.length (filter p l').
Proof.
  induction 1 as [|x l l' _ IH|x y l|l l' l'' _ IH1 _ IH2]; simpl; auto.
  - destruct (p x); simpl; now rewrite IH.
  - destruct (p x), (p y); reflexivity.
  - congruence.
Qed.

Lemma filter_map_comm {A B} (p : B -> bool) (g : A -> B) (l : list A) :
  filter p (map g l) = map g (filter (fun x => p (g x)) l).
Proof.
  induction l as [|x l IH]; simpl; auto.
  destruct (p (g x)); simpl; now rewrite IH.
Qed.

Lemma filter_filter {A} (p q : A -> bool) (l : list A) :
  filter p (filter q l) = filter (fun x => q x && p x) l.
Proof.
  induction l as [|x l IH]; simpl; auto.
  destruct (q x); simpl; [destruct (p x); simpl; now rewrite IH | exact IH].
Qed.

Lemma summary_counts_raw n y m env db :
  let s := get_user_attendance_summary n y m env db in
  let mine := filter (fun r => String.eqb (df_name r) n)
                     (get_monthly_attendance y m env db) in
  total_days_present s = Z.of_nat (List.length mine) /\
  days_with_punch_out s
  = Z.of_nat (List.length (filter (fun r => notna (df_punch_out r)) mine)).
Proof.
  cbv zeta. unfold get_user_attendance_summary.
  destruct (get_monthly_attendance y m env db) as [|r df]; [now split|].
  destruct (filter _ (r :: df)); now split.
Qed.

(** X19: what the summary counts. [total_days_present] is the number of
    stored rows of that user dated within the month, and
    [days_with_punch_out] the number of those with punch-out set. *)
Theorem summary_counts_stored_rows n y m db :
  let s := get_user_attendance_summary n y m SqliteOk db in
  let mine := filter (fun r => in_month y m r && String.eqb (name r) n)
                     (rows db) in
  total_days_present s = Z.of_nat (List.length mine) /\
  days_with_punch_out s
  = Z.of_nat (List.length (filter (fun r => notna (punch_out r)) mine)).
Proof.
  cbv zeta.
  destruct (summary_counts_raw n y m SqliteOk db) as [H1 H2].
  rewrite H1, H2. clear H1 H2.
  pose proof (monthly_perm y m db) as Hperm.
  split; f_equal.
  - rewrite (perm_filter_length _ _ _ Hperm), filter_map_comm, length_map.
    cbn [df_name select_row]. now rewrite filter_filter.
  - rewrite filter_filter.
    rewrite (perm_filter_length _ _ _ Hperm), filter_map_comm, length_map.
    cbn [df_name df_punch_out select_row].
    rewrite !filter_filter. f_equal. apply filter_ext.
    intros r. now rewrite andb_assoc.
Qed.

(** *** The month window *)

Lemma pad2_table :
  forallb (fun a => forallb (pad2_ordered a) (range 100)) (range 100) = true.
Proof. vm_compute. reflexivity. Qed.

Lemma pad4_table :
  forallb (fun hi => forallb (pad4_splits hi) (range 100)) (range 100) = true.
Proof. vm_compute. reflexivity. Qed.

Lemma pad2_compare (a b : Z) :
  (0 <= a < 100)%Z -> (0 <= b < 100)%Z ->
  String.compare (zero_pad 2 a) (zero_pad 2 b) = Z.compare a b /\
  String.length (zero_pad 2 a) = 2%nat.
Proof.
  intros Ha Hb. pose proof pad2_table as H.
  rewrite forallb_forall in H. specialize (H a (DbProofs.in_range 100 a Ha)).
  rewrite forallb_forall in H. specialize (H b (DbProofs.in_range 100 b Hb)).
  unfold pad2_ordered in H. apply andb_prop in H. destruct H as [Hl Hc].
  apply Nat.eqb_eq in Hl. split; [|exact Hl].
  destruct (String.compare (zero_pad 2 a) (zero_pad 2 b)), (a ?= b)%Z;
    congruence.
Qed.

Lemma pad4_split (y : Z) :
  (0 <= y <= 9999)%Z ->
  zero_pad 4 y = (zero_pad 2 (y / 100) ++ zero_pad 2 (y mod 100))%string.
Proof.
  intros Hy. pose proof pad4_table as H.
  assert (Hhi : (0 <= y / 100 < Z.of_nat 100)%Z)
    by (split; [apply Z.div_pos; lia | apply Z.div_lt_upper_bound; lia]).
  assert (Hlo : (0 <= y mod 100 < Z.of_nat 100)%Z)
    by (apply Z.mod_pos_bound; lia).
  rewrite forallb_forall in H. specialize (H _ (DbProofs.in_range 100 _ Hhi)).
  rewrite forallb_forall in H. specialize (H _ (DbProofs.in_range 100 _ Hlo)).
  unfold pad4_splits in H. apply String.eqb_eq in H.
  rewrite <- H. f_equal. apply Z.div_mod. lia.
Qed.

Lemma pad4_compare (y y' : Z) :
  (0 <= y <= 9999)%Z -> (0 <= y' <= 9999)%Z ->
  String.compare (zero_pad 4 y) (zero_pad 4 y') = Z.compare y y' /\
  String.length (zero_pad 4 y) = 4%nat.
Proof.
  intros Hy Hy'. rewrite (pad4_split y Hy), (pad4_split y' Hy').
  assert (Hhi : (0 <= y / 100 < 100)%Z)
    by (split; [apply Z.div_pos; lia | apply Z.div_lt_upper_bound; lia]).
  assert (Hlo : (0 <= y mod 100 < 100)%Z) by (apply Z.mod_pos_bound; lia).
  assert (Hhi' : (0 <= y' / 100 < 100)%Z)
    by (split; [apply Z.div_pos; lia | apply Z.div_lt_upper_bound; lia]).
  assert (Hlo' : (0 <= y' mod 100 < 100)%Z) by (apply Z.mod_pos_bound; lia).
  destruct (pad2_compare _ _ Hhi Hhi') as [Chi Lhi].
  destruct (pad2_compare _ _ Hlo Hlo') as [Clo Llo].
  destruct (pad2_compare _ _ Hhi' Hhi) as [_ Lhi'].
  split.
  - rewrite TextOrder.compare_append by congruence. rewrite Chi, Clo.
    pose proof (Z.div_mod y 100) as E. pose proof (Z.div_mod y' 100) as E'.
    destruct (Z.compare_spec (y / 100) (y' / 100)),
             (Z.compare_spec (y mod 100) (y' mod 100)),
             (Z.compare_spec y y'); try reflexivity; exfalso; lia.
  - rewrite TextOrder.length_append. lia.
Qed.

Lemma ymd_compare (y m d y' m' d' : Z) :
  (0 <= y <= 9999)%Z -> (0 <= y' <= 9999)%Z ->
  (0 <= m < 100)%Z -> (0 <= m' < 100)%Z ->
  (0 <= d < 100)%Z -> (0 <= d' < 100)%Z ->
  String.compare
    (zero_pad 4 y ++ "-" ++ zero_pad 2 m ++ "-" ++ zero_pad 2 d)
    (zero_pad 4 y' ++ "-" ++ zero_pad 2 m' ++ "-" ++ zero_pad 2 d')
  = compare_ymd y m d y' m' d'.
Proof.
  intros Hy Hy' Hm Hm' Hd Hd'.
  destruct (pad4_compare y y' Hy Hy') as [Cy Ly].
  destruct (pad4_compare y' y Hy' Hy) as [_ Ly'].
  destruct (pad2_compare m m' Hm Hm') as [Cm Lm].
  destruct (pad2_compare m' m Hm' Hm) as [_ Lm'].
  destruct (pad2_compare d d' Hd Hd') as [Cd _].
  unfold compare_ymd.
  rewrite TextOrder.compare_append by congruence. rewrite Cy.
  destruct (y ?= y')%Z; try reflexivity.
  change (String.compare ("-" ++ zero_pad 2 m ++ "-" ++ zero_pad 2 d)
                         ("-" ++ zero_pad 2 m' ++ "-" ++ zero_pad 2 d'))
    with (String.compare (zero_pad 2 m ++ "-" ++ zero_pad 2 d)
                         (zero_pad 2 m' ++ "-" ++ zero_pad 2 d')).
  rewrite TextOrder.compare_append by congruence. rewrite Cm.
  destruct (m ?= m')%Z; try reflexivity.
  exact Cd.
Qed.

(** The text window of the monthly query on a date rendered with four
    year digits: it holds exactly the dates of that month. *)
Lemma in_month_of_strftime y m day r :
  (0 <= y <= 9998)%Z -> (1 <= m <= 12)%Z ->
  (0 <= year day <= 9999)%Z -> (1 <= month day <= 12)%Z ->
  (1 <= Db.day day <= 31)%Z ->
  date_ r = strftime_Ymd day ->
  in_month y m r = true <-> year day = y /\ month day = m.
Proof.
  intros Hy Hm Hy' Hm' Hd' Hdate. unfold in_month. rewrite Hdate.
  unfold strftime_Ymd, text_le, text_lt.
  change "-01-01"%string with ("-" ++ zero_pad 2 1 ++ "-" ++ zero_pad 2 1)%string.
  change "-01"%string with ("-" ++ zero_pad 2 1)%string.
  rewrite (ymd_compare y m 1 (year day) (month day) (Db.day day)) by lia.
  destruct (m =? 12)%Z eqn:E12.
  - apply Z.eqb_eq in E12. subst m.
    rewrite (ymd_compare (year day) (month day) (Db.day day) (y + 1) 1 1) by lia.
    unfold compare_ymd.
    destruct (Z.compare_spec y (year day)),
             (Z.compare_spec 12 (month day)),
             (Z.compare_spec 1 (Db.day day)),
             (Z.compare_spec (year day) (y + 1)),
             (Z.compare_spec (month day) 1),
             (Z.compare_spec (Db.day day) 1);
      simpl; split; intros Hgoal; try discriminate; try lia; try reflexivity.
  - apply Z.eqb_neq in E12.
    rewrite (ymd_compare (year day) (month day) (Db.day day) y (m + 1) 1) by lia.
    unfold compare_ymd.
    destruct (Z.compare_spec y (year day)),
             (Z.compare_spec m (month day)),
             (Z.compare_spec 1 (Db.day day)),
             (Z.compare_spec (year day) y),
             (Z.compare_spec (month day) (m + 1)),
             (Z.compare_spec (Db.day day) 1);
      simpl; split; intros Hgoal; try discriminate; try lia; try reflexivity.
Qed.

(** X20: the month window. For a stored row dated by [strftime] in the
    years 1000 to 9999 (where [%Y] gives four digits) and a query for month
    [m] of a year [y] from 1000 to 9998, [get_monthly_attendance] returns
    the line of that row exactly when the row is dated in month [m] of year
    [y], December (whose window ends on January 1 of [y + 1]) included. *)
Theorem monthly_filter_selects_the_month y m db r day :
  (1000 <= y <= 9998)%Z -> (1 <= m <= 12)%Z ->
  In r (rows db) ->
  date_ r = strftime_Ymd day ->
  (1000 <= year day <= 9999)%Z -> (1 <= month day <= 12)%Z ->
  (1 <= Db.day day <= 31)%Z ->
  In (select_row r) (get_monthly_attendance y m SqliteOk db)
  <-> year day = y /\ month day = m.
Proof.
  intros Hy Hm Hin Hdate Hy' Hm' Hd'.
  assert (Hwindow : in_month y m r = true <-> year day = y /\ month day = m)
    by (apply in_month_of_strftime; try assumption; lia).
  pose proof (monthly_perm y m db) as Hperm.
  split.
  - intros Hline. apply Hwindow.
    apply (Permutation_in _ Hperm) in Hline.
    apply in_map_iff in Hline. destruct Hline as [r' [Hsame Hr']].
    apply filter_In in Hr'. destruct Hr' as [_ Hr'].
    assert (Hd : date_ r' = date_ r)
      by exact (f_equal df_date Hsame).
    unfold in_month in *. rewrite <- Hd. exact Hr'.
  - intros Hmonth. apply Hwindow in Hmonth.
    apply (Permutation_in _ (Permutation_sym Hperm)).
    apply in_map. apply filter_In. split; assumption.
Qed.

(** *** Order of the results *)

Section InsertionSort.

Variable A : Type.
Variable leb : A -> A -> bool.
Hypothesis leb_total : forall a b, leb a b = false -> leb b a = true.
Hypothesis leb_trans :
  forall a b c, leb a b = true -> leb b c = true -> leb a c = true.

Abbreviation insert := (@insert_leb A leb).

Lemma insert_leb_in (r x : A) (l : list A) :
  In x (insert r l) -> x = r \/ In x l.
Proof.
  induction l as [|y l IH]; simpl.
  - intros [<-|[]]. now left.
  - destruct (leb y r); simpl; intros [<-|H]; auto.
    destruct (IH H); auto.
Qed.

Lemma insert_leb_sorted (r : A) (l : list A) :
  StronglySorted (fun a b => leb a b = true) l ->
  StronglySorted (fun a b => leb a b = true) (insert r l).
Proof.
  induction 1 as [|x l Hs IH Hall]; simpl.
  - repeat constructor.
  - destruct (leb x r) eqn:E.
    + constructor; [exact IH|]. apply Forall_forall. intros y Hy.
      apply insert_leb_in in Hy. destruct Hy as [->|Hy]; [exact E|].
      rewrite Forall_forall in Hall. now apply Hall.
    + apply leb_total in E. constructor; [now constructor|].
      constructor; [exact E|]. rewrite Forall_forall in *.
      intros y Hy. apply leb_trans with x; auto.
Qed.

Lemma fold_insert_leb_sorted (l acc : list A) :
  StronglySorted (fun a b => leb a b = true) acc ->
  StronglySorted (fun a b => leb a b = true)
                 (fold_left (fun a r => insert r a) l acc).
Proof.
  revert acc. induction l as [|x l IH]; intros acc Hacc; simpl; auto.
  apply IH. now apply insert_leb_sorted.
Qed.

End InsertionSort.

Lemma sorted_map {A B} (R : A -> A -> Prop) (R' : B -> B -> Prop)
      (g : A -> B) (l : list A) :
  (forall a b, R a b -> R' (g a) (g b)) ->
  StronglySorted R l -> StronglySorted R' (map g l).
Proof.
  intros Hg. induction 1 as [|x l Hs IH Hall]; simpl; constructor; auto.
  rewrite Forall_forall in *. intros y Hy. apply in_map_iff in Hy.
  destruct Hy as [a [<- Ha]]. auto.
Qed.

Lemma fold_left_same {A B} (f g : A -> B -> A) (l : list B) (acc : A) :
  (forall a r, f a r = g a r) -> fold_left f l acc = fold_left g l acc.
Proof.
  intros Hfg. revert acc. induction l as [|x l IH]; intros acc; simpl; auto.
  now rewrite Hfg, IH.
Qed.

Lemma insert_sorted_is_insert_leb r l :
  insert_sorted r l = @insert_leb row order_before r l.
Proof. induction l as [|x l IH]; simpl; [reflexivity|]. now rewrite IH. Qed.

Lemma insert_by_punch_in_is_insert_leb r l :
  insert_by_punch_in r l
  = @insert_leb row (fun a b => text_le (punch_in a) (punch_in b)) r l.
Proof. induction l as [|x l IH]; simpl; [reflexivity|]. now rewrite IH. Qed.

Lemma text_lt_compare (a b : string) :
  text_lt a b = true <-> String.compare a b = Lt.
Proof. unfold text_lt. destruct (String.compare a b); split; congruence. Qed.

Lemma order_before_total a b :
  order_before a b = false -> order_before b a = true.
Proof.
  unfold order_before. intros H. apply orb_false_iff in H.
  destruct H as [H1 H2].
  destruct (String.compare (date_ a) (date_ b)) eqn:E.
  - apply String.compare_eq_iff in E. rewrite E in *.
    rewrite String.eqb_refl in *. simpl in H2.
    rewrite (TextOrder.text_le_total _ _ H2). apply orb_true_r.
  - apply text_lt_compare in E. now rewrite E.
  - apply TextOrder.compare_gt_lt in E. apply text_lt_compare in E. congruence.
Qed.

Lemma order_before_cases a b :
  order_before a b = true <->
  String.compare (date_ b) (date_ a) = Lt \/
  (date_ a = date_ b /\ text_le (punch_in a) (punch_in b) = true).
Proof.
  unfold order_before.
  rewrite orb_true_iff, andb_true_iff, String.eqb_eq, text_lt_compare. tauto.
Qed.

Lemma order_before_trans a b c :
  order_before a b = true -> order_before b c = true ->
  order_before a c = true.
Proof.
  rewrite !order_before_cases.
  intros [Hab|[Eab Pab]] [Hbc|[Ebc Pbc]].
  - left. now apply TextOrder.compare_lt_trans with (date_ b).
  - left. now rewrite <- Ebc.
  - left. now rewrite Eab.
  - right. split; [congruence|].
    now apply TextOrder.text_le_trans with (punch_in b).
Qed.

(** X21: order of the results. Today's lines come in ascending punch-in
    order, and the monthly lines by date descending, then punch-in
    ascending. *)
Theorem queries_are_ordered y m today env db :
  StronglySorted df_punch_in_le (get_today_attendance today env db) /\
  StronglySorted df_before (get_monthly_attendance y m env db).
Proof.
  split.
  - unfold get_today_attendance. destruct env; [|constructor].
    apply sorted_map
      with (R := fun a b => text_le (punch_in a) (punch_in b) = true);
      [auto|].
    rewrite (fold_left_same _ (fun a r => @insert_leb row _ r a) _ _
               (fun a r => insert_by_punch_in_is_insert_leb r a)).
    apply fold_insert_leb_sorted; [| |constructor].
    + intros a b. apply TextOrder.text_le_total.
    + intros a b c. apply TextOrder.text_le_trans.
  - unfold get_monthly_attendance, order_by. destruct env; [|constructor].
    apply sorted_map with (R := fun a b => order_before a b = true);
      [auto|].
    rewrite (fold_left_same _ (fun a r => @insert_leb row _ r a) _ _
               (fun a r => insert_sorted_is_insert_leb r a)).
    apply fold_insert_leb_sorted; [| |constructor].
    + apply order_before_total.
    + apply order_before_trans.
Qed.

Lemma insert_name_in n l x : In x (insert_name n l) <-> x = n \/ In x l.
Proof.
  induction l as [|y l IH]; simpl; [intuition|].
  destruct (String.compare n y) eqn:E; simpl.
  - apply String.compare_eq_iff in E. subst. intuition.
  - intuition.
  - rewrite IH. intuition.
Qed.

Lemma insert_name_sorted n l :
  StronglySorted name_lt l -> StronglySorted name_lt (insert_name n l).
Proof.
  induction 1 as [|y l Hs IH Hall]; simpl.
  - repeat constructor.
  - destruct (String.compare n y) eqn:E.
    + now constructor.
    + constructor; [now constructor|]. constructor; [exact E|].
      rewrite Forall_forall in *. intros z Hz.
      apply TextOrder.compare_lt_trans with y; auto. now apply Hall.
    + constructor; [exact IH|]. rewrite Forall_forall in *.
      intros z Hz. apply insert_name_in in Hz. destruct Hz as [->|Hz].
      * now apply TextOrder.compare_gt_lt.
      * now apply Hall.
Qed.

Lemma sorted_names_distinct l : StronglySorted name_lt l -> NoDup l.
Proof.
  induction 1 as [|y l Hs IH Hall]; constructor; auto.
  intros Hin. rewrite Forall_forall in Hall. specialize (Hall y Hin).
  unfold name_lt in Hall. rewrite TextOrder.compare_refl in Hall. discriminate.
Qed.

(** X22: the user list. [get_all_users] lists exactly the names that have a
    row, each once, in ascending order; when the query raises it is
    empty. *)
Theorem get_all_users_lists_each_name_once db :
  let users := get_all_users SqliteOk db in
  (forall u, In u users <-> exists r, In r (rows db) /\ name r = u) /\
  NoDup users /\ StronglySorted name_lt users /\
  get_all_users SqliteRaises db = [].
Proof.
  cbv zeta. unfold get_all_users.
  assert (H : forall l acc,
             StronglySorted name_lt acc ->
             StronglySorted name_lt
               (fold_left (fun a r => insert_name (name r) a) l acc) /\
             forall u,
               In u (fold_left (fun a r => insert_name (name r) a) l acc) <->
               (exists r, In r l /\ name r = u) \/ In u acc).
  { induction l as [|x l IH]; intros acc Hacc; simpl.
    - split; [exact Hacc|]. intros u. split; [auto|].
      intros [[r [[] _]]|H]; exact H.
    - destruct (IH (insert_name (name x) acc) (insert_name_sorted _ _ Hacc))
        as [Hs Hin].
      split; [exact Hs|]. intros u. rewrite Hin, insert_name_in. split.
      + intros [[r [Hr Hu]]|[Hu|Hu]]; eauto.
      + intros [[r [[->|Hr] Hu]]|Hu]; eauto. } 
  destruct (H (rows db) [] (SSorted_nil _)) as [Hs Hin].
  split; [|split; [now apply sorted_names_distinct|split; [exact Hs|reflexivity]]].
  intros u. rewrite Hin. split; [intros [H0|[]]; exact H0 | auto].
Qed.

Lemma mark_attendance_keeps_one_row_per_day_witness :
  one_row_per_day bob_db /\
  one_row_per_day (snd (mark_attendance "alice" march_7 nine SqliteOk bob_db)).
Proof.
  assert (Hone : one_row_per_day bob_db).
  { intros n d. unfold bob_db. cbn [rows filter].
    destruct (matches n d _); simpl; lia. }
  split; [exact Hone|].
  exact (mark_attendance_keeps_one_row_per_day
           "alice"%string march_7 nine SqliteOk bob_db Hone).
Defined.

Lemma mark_attendance_keeps_ids_distinct_witness :
  ids_bounded bob_db /\ distinct_ids bob_db /\
  ids_bounded (snd (mark_attendance "alice" march_7 nine SqliteOk bob_db)) /\
  distinct_ids (snd (mark_attendance "alice" march_7 nine SqliteOk bob_db)).
Proof.
  assert (Hb : ids_bounded bob_db).
  { constructor; [simpl; lia | constructor]. }
  assert (Hd : distinct_ids bob_db).
  { change (NoDup [1%Z]). constructor; [intros [] | constructor]. }
  split; [exact Hb|]. split; [exact Hd|].
  exact (mark_attendance_keeps_ids_distinct
           "alice"%string march_7 nine SqliteOk bob_db Hb Hd).
Defined.

Lemma mark_attendance_leaves_other_rows_witness :
  distinct_ids bob_db /\
  filter (fun r => negb (matches "alice" (strftime_Ymd march_7) r))
         (rows (snd (mark_attendance "alice" march_7 nine SqliteOk bob_db)))
  = rows bob_db.
Proof.
  assert (Hd : distinct_ids bob_db).
  { change (NoDup [1%Z]). constructor; [intros [] | constructor]. }
  split; [exact Hd|].
  rewrite (mark_attendance_leaves_other_rows
             "alice"%string march_7 nine SqliteOk bob_db Hd).
  vm_compute. reflexivity.
Defined.

Lemma hours_worked_sign_witness :
  valid_time nine /\ valid_time half_past_five /\
  exists h v,
    hours_worked (mkRow 1 "alice" "2024-03-07" (strftime_HMS nine)
                        (Some (strftime_HMS half_past_five))) = Some h /\
    float_value h = Some v /\ 0 < v.
Proof.
  assert (H9 : valid_time nine) by (unfold valid_time; simpl; lia).
  assert (H5 : valid_time half_past_five) by (unfold valid_time; simpl; lia).
  split; [exact H9|]. split; [exact H5|].
  destruct (hours_worked_sign 1%Z "alice"%string "2024-03-07"%string
                              nine half_past_five H9 H5)
    as [h [v [Hh [Hv [Hpos _]]]]].
  exists h, v. split; [exact Hh|]. split; [exact Hv|].
  apply Hpos. vm_compute. reflexivity.
Defined.

Lemma monthly_filter_selects_the_month_witness :
  In full_day (rows march_db) /\
  date_ full_day = strftime_Ymd march_7 /\
  In (select_row full_day) (get_monthly_attendance 2024 3 SqliteOk march_db).
Proof.
  assert (Hin : In full_day (rows march_db)) by (left; reflexivity).
  assert (Hdate : date_ full_day = strftime_Ymd march_7)
    by (vm_compute; reflexivity).
  split; [exact Hin|]. split; [exact Hdate|].
  apply (proj2 (monthly_filter_selects_the_month
                  2024 3 march_db full_day march_7
                  ltac:(lia) ltac:(lia) Hin Hdate
                  ltac:(simpl; lia) ltac:(simpl; lia) ltac:(simpl; lia))).
  split; reflexivity.
Defined.

End LedgerProofs.

(** ** The camera handler *)

Module CameraProofs.
Import Camera.

Section Handler.

Variable device : Type.
Variable image : Type.
Variable flip : image -> outcome image.
Variable cvtColor : image -> outcome image.

Abbreviation capture := (capture_frame flip cvtColor).

(** X23: opening. [open_camera] answers True exactly when the device was
    created and its test read returned a frame; whenever the device was
    created it stays in [self.cap], also when the call answers False, so a
    later [capture_frame] reads from it. *)
Theorem open_camera_keeps_the_device (env : open_env device)
        (c : camera_handler device) :
  (fst (open_camera env c) = true <->
   exists dev, env = Constructed dev (Returns true)) /\
  (forall dev test_read,
      env = Constructed dev test_read ->
      cap (snd (open_camera env c)) = Some dev /\
      forall raw mirrored frame_rgb,
        flip raw = Returns mirrored -> cvtColor mirrored = Returns frame_rgb ->
        fst (capture (Returns (Some raw)) (snd (open_camera env c)))
        = (Some frame_rgb, true)) /\
  (env = ConstructorRaises device ->
   cap (snd (open_camera env c)) = cap c /\ fst (open_camera env c) = false).
Proof.
  split; [|split].
  - destruct env as [|dev [[|]|]]; simpl; split; intros H;
      try discriminate; try reflexivity;
      try (now exists dev); destruct H as [dev' H]; discriminate.
  - intros dev test_read ->.
    assert (Hcap : cap (snd (open_camera (Constructed dev test_read) c))
                   = Some dev)
      by (destruct test_read as [[|]|]; reflexivity).
    split; [exact Hcap|].
    intros raw mirrored frame_rgb Hflip Hcvt.
    unfold capture_frame. rewrite Hcap, Hflip, Hcvt. reflexivity.
  - intros ->. now split.
Qed.

(** X24: capturing. [capture_frame] returns a frame exactly when it reports
    success, and then it is the mirrored, RGB-converted frame just read; it
    never changes [self.cap]; on a handler that was never opened or was
    released it fails without reading, and releasing twice is the same as
    releasing once. *)
Theorem capture_frame_contract (env : read_env image)
        (c : camera_handler device) :
  let out := capture env c in
  (snd (fst out) = true <-> fst (fst out) <> None) /\
  (snd (fst out) = true ->
   exists raw mirrored frame_rgb,
     env = Returns (Some raw) /\ flip raw = Returns mirrored /\
     cvtColor mirrored = Returns frame_rgb /\
     fst (fst out) = Some frame_rgb /\ cap c <> None) /\
  cap (snd out) = cap c /\
  capture env (release_camera c) = ((None, false), release_camera c) /\
  release_camera (release_camera c) = release_camera c.
Proof.
  cbv zeta. split; [|split; [|split; [|split]]].
  - unfold capture_frame. destruct (cap c); [|simpl; split; congruence].
    destruct env as [[raw|]|]; try (simpl; split; congruence).
    destruct (flip raw) as [mirrored|]; [|simpl; split; congruence].
    destruct (cvtColor mirrored); simpl; split; congruence.
  - unfold capture_frame. destruct (cap c) eqn:Hc; [|discriminate].
    destruct env as [[raw|]|]; try discriminate.
    destruct (flip raw) as [mirrored|] eqn:Hf; [|discriminate].
    destruct (cvtColor mirrored) as [rgb|] eqn:Hv; [|discriminate].
    intros _. exists raw, mirrored, rgb. repeat split; congruence.
  - unfold capture_frame. destruct (cap c) eqn:Hc; [|cbn; congruence].
    destruct env as [[raw|]|]; try (cbn; congruence).
    destruct (flip raw) as [mirrored|]; [|cbn; congruence].
    destruct (cvtColor mirrored); cbn; congruence.
  - unfold capture_frame, release_camera.
    destruct (cap c) eqn:Hc; cbn; [reflexivity | now rewrite Hc].
  - unfold release_camera. destruct (cap c) eqn:Hc; simpl; [reflexivity|].
    now rewrite Hc.
Qed.

End Handler.

Lemma open_camera_keeps_the_device_witness :
  let out := open_camera (Constructed tt (Returns false)) (new_handler unit 0) in
  fst out = false /\
  cap (snd out) = Some tt /\
  fst (capture_frame CameraVocabulary.mirror CameraVocabulary.to_rgb
                     (Returns (Some 7%Z)) (snd out))
  = (Some (-7)%Z, true).
Proof.
  pose proof (open_camera_keeps_the_device
                unit Z CameraVocabulary.mirror CameraVocabulary.to_rgb
                (Constructed tt (Returns false)) (new_handler unit 0)) as H.
  destruct H as [_ [H _]].
  destruct (H tt (Returns false) eq_refl) as [Hcap Hread].
  cbv zeta. split; [reflexivity|]. split; [exact Hcap|].
  apply (Hread 7%Z (-7)%Z (-7)%Z); reflexivity.
Defined.

Lemma capture_frame_contract_witness :
  let out := capture_frame CameraVocabulary.mirror CameraVocabulary.to_rgb
                           (Returns (Some 7%Z)) CameraVocabulary.opened in
  snd (fst out) = true /\
  exists raw mirrored frame_rgb,
    Returns (Some 7%Z) = Returns (Some raw) /\
    CameraVocabulary.mirror raw = Returns mirrored /\
    CameraVocabulary.to_rgb mirrored = Returns frame_rgb /\
    fst (fst out) = Some frame_rgb /\ cap CameraVocabulary.opened <> None.
Proof.
  pose proof (capture_frame_contract
                unit Z CameraVocabulary.mirror CameraVocabulary.to_rgb
                (Returns (Some 7%Z)) CameraVocabulary.opened) as H.
  cbv zeta in H. destruct H as [_ [H _]]. cbv zeta.
  split; [reflexivity | apply H; reflexivity].
Defined.

End CameraProofs.

(** ** The two flows of the application *)

Module AppProofs.
Import App AppVocabulary.

Section Pages.

Variable image : Type.
Variable location : Type.
Variable face_locations : image -> outcome (list location).
Variable face_encodings : image -> location -> outcome (list FaceUtils.encoding).
Variable norm : FaceUtils.encoding -> Q.
Variable cvtColor : image -> outcome Spoof.gray.
Variable as_uint8 : image -> image.
Variable face_landmarks : image -> outcome (list Spoof.landmarks).
Variable norm2 : Spoof.point -> Q.

Abbreviation check :=
  (Spoof.check_liveness cvtColor as_uint8 face_landmarks norm2).
Abbreviation loop :=
  (liveness_loop cvtColor as_uint8 face_landmarks norm2).
Abbreviation start :=
  (start_liveness_check cvtColor as_uint8 face_landmarks norm2).
Abbreviation attend :=
  (page_mark_attendance face_locations face_encodings norm).

Lemma check_first_frame f d g :
  Spoof.frame_history d = [] -> Spoof.ear_history d = [] ->
  Spoof.blink_detected d = false -> Spoof.max_history d = 5%nat ->
  (0 <= Spoof.frame_variation_threshold d)%Z ->
  cvtColor f = Returns g ->
  Spoof.is_live (fst (check f d)) = false /\
  LivenessSpec.static_history g (snd (check f d)).
Proof.
  intros Hfh Heh Hbd Hmax Hthr Hcvt. unfold Spoof.check_liveness.
  pose proof (SpoofProofs.variation_keeps_blink_state image cvtColor f d) as Hv.
  cbv zeta in Hv.
  assert (Hh : Spoof.frame_history
                 (snd (Spoof.detect_frame_variation cvtColor f d)) = [g]).
  { unfold Spoof.detect_frame_variation. rewrite Hcvt, Hfh, Hmax. reflexivity. }
  destruct (Spoof.detect_frame_variation cvtColor f d) as [v d1].
  cbn [fst snd] in *.
  destruct Hv as [H1 [_ [_ [H4 [H5 H6]]]]].
  pose proof (SpoofProofs.first_sample_no_blink
                image as_uint8 face_landmarks norm2 f d1) as Hnb.
  rewrite H1, H4 in Hnb. specialize (Hnb Heh Hbd).
  pose proof (SpoofProofs.blink_keeps_parameters
                image as_uint8 face_landmarks norm2 f d1) as Hb.
  cbv zeta in Hb.
  destruct (Spoof.detect_blink_presence as_uint8 face_landmarks norm2 f d1)
    as [b d2]. cbn [fst snd] in *.
  destruct Hb as [_ [_ [B3 [B4 B5]]]].
  split; [rewrite Hnb; apply andb_false_r|].
  unfold LivenessSpec.static_history. rewrite B3, B4, B5, Hh, H5, H6.
  repeat split; auto. discriminate.
Qed.

Lemma loop_static g capture budget i d :
  LivenessSpec.static_history g d ->
  (forall j f, capture j = Some f -> cvtColor f = Returns g) ->
  not_passed (fst (loop budget i capture d)) /\
  ((forall j, (i <= j < i + budget)%nat -> capture j <> None) ->
   fst (loop budget i capture d) = LivenessFailed image).
Proof.
  revert i d. induction budget as [|budget IH]; intros i d Hst Hall; simpl.
  - now split.
  - destruct (capture i) as [f|] eqn:Hc.
    + destruct (SpoofProofs.check_static image cvtColor as_uint8 face_landmarks
                  norm2 f d g Hst (Hall i f Hc)) as [Hl Hst1].
      destruct (check f d) as [r d1]. cbn [fst snd] in *. rewrite Hl.
      destruct (IH (S i) d1 Hst1 Hall) as [Hnp Hfail].
      split; [exact Hnp|]. intros Hcap. apply Hfail. intros j Hj.
      apply Hcap. lia.
    + split; [exact I|]. intros Hcap. exfalso. apply (Hcap i); [lia|exact Hc].
Qed.

Lemma loop_unreadable capture budget i d :
  (forall j f, capture j = Some f -> cvtColor f = Raises) ->
  not_passed (fst (loop budget i capture d)) /\
  ((forall j, (i <= j < i + budget)%nat -> capture j <> None) ->
   fst (loop budget i capture d) = LivenessFailed image).
Proof.
  revert i d. induction budget as [|budget IH]; intros i d Hall; simpl.
  - now split.
  - destruct (capture i) as [f|] eqn:Hc.
    + assert (Hl : Spoof.is_live (fst (check f d)) = false).
      { unfold Spoof.check_liveness, Spoof.detect_frame_variation.
        rewrite (Hall i f Hc).
        destruct (Spoof.detect_blink_presence _ _ _ f d). reflexivity. }
      destruct (check f d) as [r d1]. cbn [fst] in *. rewrite Hl.
      destruct (IH (S i) d1 Hall) as [Hnp Hfail].
      split; [exact Hnp|]. intros Hcap. apply Hfail. intros j Hj.
      apply Hcap. lia.
    + split; [exact I|]. intros Hcap. exfalso. apply (Hcap i); [lia|exact Hc].
Qed.

(** X25: a still picture at registration. When every frame the camera
    delivers during a liveness check converts to the same grayscale image
    (or none converts) and the variation threshold is not negative, the
    check never ends with a captured frame; if the camera delivers all 30
    frames it ends in "liveness check failed". *)
Theorem still_picture_fails_liveness_check capture d o :
  Spoof.max_history d = 5%nat ->
  (0 <= Spoof.frame_variation_threshold d)%Z ->
  (forall j f, capture j = Some f -> cvtColor f = o) ->
  not_passed (fst (start capture d)) /\
  ((forall j, (j < 30)%nat -> capture j <> None) ->
   fst (start capture d) = LivenessFailed image).
Proof.
  intros Hmax Hthr Hall. unfold start_liveness_check.
  destruct o as [g|].
  - cbn [liveness_loop].
    destruct (capture 0%nat) as [f|] eqn:Hc.
    + destruct (check_first_frame f (Spoof.reset d) g) as [Hl Hst]; auto.
      { apply (Hall 0%nat). exact Hc. }
      destruct (check f (Spoof.reset d)) as [r d1]. cbn [fst snd] in *.
      rewrite Hl.
      destruct (loop_static g capture 29 1 d1 Hst Hall) as [Hnp Hfail].
      split; [exact Hnp|]. intros Hcap. apply Hfail. intros j Hj.
      apply Hcap. lia.
    + split; [exact I|]. intros Hcap. exfalso.
      apply (Hcap 0%nat); [lia | exact Hc].
  - destruct (loop_unreadable capture 30 0 (Spoof.reset d) Hall) as [Hnp Hfail].
    split; [exact Hnp|]. intros Hcap. apply Hfail. intros j Hj.
    apply Hcap. lia.
Qed.

(** A successful recognition names a registered user. *)
Lemma recognized_name_is_registered img e :
  FaceUtils.success
    (fst (FaceUtils.recognize_face face_locations face_encodings norm img e))
  = true ->
  exists u,
    FaceUtils.name
      (fst (FaceUtils.recognize_face face_locations face_encodings norm img e))
    = Some u /\
    In u (FaceUtils.get_registered_users e).
Proof.
  unfold FaceUtils.recognize_face, FaceUtils.detect_faces,
    FaceUtils.generate_encoding.
  destruct (face_locations img) as [[|loc [|loc' locs]]|];
    cbn zeta iota beta; try discriminate.
  destruct (Dict.is_empty (FaceUtils.known_faces e)); try discriminate.
  destruct (face_encodings img loc) as [[|probe more]|];
    cbn zeta iota beta; try discriminate.
  set (ds := FaceUtils.face_distance norm
               (FaceUtils.all_known_encodings (FaceUtils.known_faces e)) probe).
  destruct (List.length ds =? 0)%nat eqn:Hlen; try discriminate.
  apply Nat.eqb_neq in Hlen.
  assert (Hds : ds <> []) by (intros H; rewrite H in Hlen; now apply Hlen).
  destruct (FaceUtilsProofs.argmin_spec ds Hds) as [Hk _].
  destruct (Qltb _ _); cbn [fst]; [|discriminate]. intros _.
  eexists. split; [reflexivity|].
  assert (Hki : (FaceUtils.argmin ds
                 < List.length (FaceUtils.all_known_encodings
                                  (FaceUtils.known_faces e)))%nat).
  { unfold ds, FaceUtils.face_distance in Hk. now rewrite length_map in Hk. }
  destruct (FaceUtilsProofs.names_aligned _ _ Hki) as [encs [Hin _]].
  unfold FaceUtils.get_registered_users, Dict.keys.
  apply in_map_iff. eexists. split; [|exact Hin]. reflexivity.
Qed.

Lemma recognize_face_keeps_gallery img e :
  FaceUtils.known_faces
    (snd (FaceUtils.recognize_face face_locations face_encodings norm img e))
  = FaceUtils.known_faces e.
Proof.
  unfold FaceUtils.recognize_face, FaceUtils.detect_faces,
    FaceUtils.generate_encoding.
  destruct (face_locations img) as [[|loc [|loc' locs]]|];
    cbn zeta iota beta; try reflexivity.
  destruct (Dict.is_empty (FaceUtils.known_faces e)); try reflexivity.
  destruct (face_encodings img loc) as [[|probe more]|];
    cbn zeta iota beta; try reflexivity.
  destruct (List.length _ =? 0)%nat; [reflexivity|].
  destruct (Qltb _ _); reflexivity.
Qed.

(** X26: who gets a row. [page_mark_attendance] records attendance only under
    the name of a registered user: after the page ran, every name in the
    table was there before or is registered; the table changes only when a
    face was recognized, and the gallery never changes. *)
Theorem attendance_only_for_registered_users frame today now env e db :
  let out := attend frame today now env e db in
  (forall r, In r (Db.rows (snd out)) ->
             In (Db.name r) (map Db.name (Db.rows db)) \/
             In (Db.name r) (FaceUtils.get_registered_users e)) /\
  (forall n a, fst (fst out) = Attendance n a ->
               In n (FaceUtils.get_registered_users e)) /\
  ((forall n a, fst (fst out) <> Attendance n a) -> snd out = db) /\
  FaceUtils.known_faces (snd (fst out)) = FaceUtils.known_faces e.
Proof.
  cbv zeta. unfold page_mark_attendance.
  destruct (FaceUtils.get_user_count e =? 0)%nat.
  { cbn. repeat split; auto; try discriminate.
    intros r Hr. left. now apply in_map. }
  destruct frame as [img|].
  2:{ cbn. repeat split; auto; try discriminate.
      intros r Hr. left. now apply in_map. }
  pose proof (recognized_name_is_registered img e) as Hname.
  pose proof (recognize_face_keeps_gallery img e) as Hgal.
  destruct (FaceUtils.recognize_face face_locations face_encodings norm img e)
    as [r e1]. cbn [fst snd] in *.
  destruct (FaceUtils.success r).
  - destruct (Hname eq_refl) as [u [Hu Hin]]. rewrite Hu.
    pose proof (LedgerProofs.mark_attendance_names u today now env db) as Hrows.
    destruct (Db.mark_attendance u today now env db) as [a db1].
    cbn [fst snd] in *. repeat split; auto.
    + intros r' Hr'. destruct (Hrows r' Hr') as [->|Hold]; auto.
    + intros n a' [= <- _]. exact Hin.
    + intros Hnone. exfalso. now apply (Hnone u a).
  - cbn. repeat split; auto; try discriminate.
    intros r' Hr'. left. now apply in_map.
Qed.


End Pages.

Lemma still_picture_fails_liveness_check_witness :
  Spoof.max_history Spoof.default = 5%nat /\
  (0 <= Spoof.frame_variation_threshold Spoof.default)%Z /\
  fst (start_liveness_check LivenessSpec.to_gray LivenessSpec.same_frame
                            LivenessSpec.landmarks_of LivenessSpec.norm_axis
                            still_camera Spoof.default)
  = LivenessFailed LivenessSpec.frame.
Proof.
  assert (Hthr : (0 <= Spoof.frame_variation_threshold Spoof.default)%Z)
    by (vm_compute; discriminate).
  assert (Hsame : forall j f, still_camera j = Some f ->
                              LivenessSpec.to_gray f = Returns [0; 0; 0; 0]%Z).
  { intros j f Hf. injection Hf as <-. reflexivity. }
  split; [reflexivity|]. split; [exact Hthr|].
  apply (still_picture_fails_liveness_check
           LivenessSpec.frame LivenessSpec.to_gray LivenessSpec.same_frame
           LivenessSpec.landmarks_of LivenessSpec.norm_axis still_camera
           Spoof.default (Returns [0; 0; 0; 0]%Z) eq_refl Hthr Hsame).
  intros j _. discriminate.
Defined.

Lemma attendance_only_for_registered_users_witness :
  let out := page_mark_attendance MatcherSpec.one_face MatcherSpec.embed
                                  MatcherSpec.norm_axis (Some [3 # 10])
                                  LedgerSpec.march_7 LedgerSpec.nine
                                  Db.SqliteOk MatcherSpec.alice_engine
                                  Db.empty_db in
  map Db.name (Db.rows (snd out)) = ["alice"%string] /\
  In "alice"%string (FaceUtils.get_registered_users MatcherSpec.alice_engine).
Proof.
  pose proof (attendance_only_for_registered_users
                FaceUtils.encoding unit MatcherSpec.one_face MatcherSpec.embed
                MatcherSpec.norm_axis (Some [3 # 10]) LedgerSpec.march_7
                LedgerSpec.nine Db.SqliteOk MatcherSpec.alice_engine
                Db.empty_db) as H.
  cbv zeta in H. destruct H as [_ [H _]]. cbv zeta.
  split; [vm_compute; reflexivity|].
  apply (H "alice"%string
           (fst (Db.mark_attendance "alice" LedgerSpec.march_7 LedgerSpec.nine
                                    Db.SqliteOk Db.empty_db))).
  vm_compute. reflexivity.
Defined.

End AppProofs.
